(** * plugin-hooker: hook resolution and the shared package watch

    A shallow embedding of [src/plugin-hooker.ts].

    - JavaScript objects whose keys are open ended (extension descriptors,
      resolved extensions) are finite maps from property names to values.
    - A promise is represented by the way it settles and by the time it takes
      to settle; [async] functions are written in the promise monad.
    - The [PluginHooker] instance, the [BehaviorSubject]s it allocates, the
      package finder it talks to and the observers of its streams live in one
      explicit [world] that every operation transforms.
    - RxJS is not part of the repository: [BehaviorSubject], [map] and
      [mergeMap] are modelled by what the library documents for them. *)

From stdpp Require Import base option list strings gmap fin_maps sorting.

(** ** JavaScript values and objects *)

Module Js.

(** The values the program inspects.  [VRef] stands for any object or
    function, known only by its identity. *)
Inductive value : Type :=
| VUndefined
| VNull
| VBool (b : bool)
| VNum (n : Z)
| VStr (s : string)
| VRef (address : nat).

#[global] Instance value_eq_dec : EqDecision value.
Proof. solve_decision. Defined.

(** An object with an index signature [[index: string]: any]. *)
Abbreviation obj := (gmap string value).

(** Property read [o.k]: a missing property reads as [undefined]. *)
Definition get (o : obj) (k : string) : value :=
  default VUndefined (o !! k).

(** [a === b] and [a !== b]. *)
Definition strict_eq (a b : value) : bool := bool_decide (a = b).
Definition strict_ne (a b : value) : bool := negb (strict_eq a b).

End Js.
Import Js.

(** ** Promises *)

Module Promise.

(** How a promise ends: fulfilled or rejected after [delay] units of time,
    or never settled.  A synchronous [throw] inside an [async] body is a
    rejection with no delay. *)
Inductive promise (A : Type) : Type :=
| Fulfils (delay : nat) (a : A)
| Rejects (delay : nat) (err : value)
| Pending.
Arguments Fulfils {A} delay a.
Arguments Rejects {A} delay err.
Arguments Pending {A}.

(** Waiting [d] more units before a promise is looked at. *)
Definition later {A} (d : nat) (p : promise A) : promise A :=
  match p with
  | Fulfils d' a => Fulfils (d + d') a
  | Rejects d' e => Rejects (d + d') e
  | Pending => Pending
  end.

(** [const x = await p; k x] *)
Definition await {A B} (p : promise A) (k : A → promise B) : promise B :=
  match p with
  | Fulfils d a => later d (k a)
  | Rejects d e => Rejects d e
  | Pending => Pending
  end.

(** [try { body } catch (err) { handler err }] around awaited code. *)
Definition try_catch {A} (body : promise A) (handler : value → promise A)
  : promise A :=
  match body with
  | Fulfils d a => Fulfils d a
  | Rejects d e => later d (handler e)
  | Pending => Pending
  end.

#[global] Instance promise_ret : MRet promise := λ A a, Fulfils 0 a.
#[global] Instance promise_bind : MBind promise := λ A B k p, await p k.

Definition settles {A} (p : promise A) : bool :=
  match p with Pending => false | _ => true end.

Definition rejected {A} (p : promise A) : bool :=
  match p with Rejects _ _ => true | _ => false end.

(** The time a promise takes (0 for one that never settles; use with
    [settles]). *)
Definition delay_of {A} (p : promise A) : nat :=
  match p with Fulfils d _ | Rejects d _ => d | Pending => 0 end.

End Promise.
Import Promise.

(** ** Data model (lines 8-68 of the source) *)

Record IPackageMetadata : Type := {
  name : string;
  author : option string;
  version : option string;
  summary : option string;
}.

(** [type Loader = (extInfo: IExtensionInfo) => Promise<any>] *)
Definition Loader : Type := obj → promise value.

Record IPackage : Type := {
  id : string;
  metadata : IPackageMetadata;
  extensions : list obj;
  load : Loader;
}.

(** ** The resolver: [PluginHooker.getImplementations] (lines 74-97) *)

(** [(extInfo) => extInfo.hook === hook] *)
Definition implements (hook : string) (extInfo : obj) : bool :=
  strict_eq (get extInfo "hook") (VStr hook).

(** [{...extInfo, packageId: pkg.id, value: v}] *)
Definition loaded_extension (extInfo : obj) (packageId : string) (v : value)
  : obj :=
  <["value" := v]> (<["packageId" := VStr packageId]> extInfo).

(** [{...extInfo, error: err, packageId: pkg.id}] *)
Definition errored_extension (extInfo : obj) (packageId : string) (err : value)
  : obj :=
  <["packageId" := VStr packageId]> (<["error" := err]> extInfo).

(** The body of the inner loop: one [try]/[catch] around one awaited load,
    each branch pushing onto the local array [extensions] (here [exts]). *)
Definition load_one (pkg : IPackage) (extInfo : obj) (exts : list obj)
  : promise (list obj) :=
  try_catch
    (v ← load pkg extInfo;
     mret (exts ++ [loaded_extension extInfo (id pkg) v]))
    (λ err, mret (exts ++ [errored_extension extInfo (id pkg) err])).

(** [for (const extInfo of contents) { ... }] *)
Fixpoint for_contents (pkg : IPackage) (contents : list obj)
    (exts : list obj) : promise (list obj) :=
  match contents with
  | [] => mret exts
  | extInfo :: rest =>
      exts' ← load_one pkg extInfo exts;
      for_contents pkg rest exts'
  end.

(** [for (const pkg of packages) { ... }] *)
Fixpoint for_packages (packages : list IPackage) (hook : string)
    (exts : list obj) : promise (list obj) :=
  match packages with
  | [] => mret exts
  | pkg :: rest =>
      let contents := List.filter (implements hook) (extensions pkg) in
      exts' ← for_contents pkg contents exts;
      for_packages rest hook exts'
  end.

Definition getImplementations (packages : list IPackage) (hook : string)
  : promise (list obj) :=
  for_packages packages hook [].

(** ** The type predicates (lines 163-174) *)

Definition isLoaded (ext : obj) : bool :=
  strict_ne (get ext "value") VUndefined.

Definition isErrored (ext : obj) : bool :=
  strict_ne (get ext "error") VUndefined.

(** ** The streams of RxJS the class relies on

    [watch] and [packagesStream] return the shared [BehaviorSubject] piped
    through one operator.  A [BehaviorSubject] keeps its latest value, hands
    it to every new observer at once and forwards each later [next] to its
    observers in subscription order.  [map] forwards synchronously.
    [mergeMap] over a promise-returning function subscribes to the promise of
    every value it is given, with no limit on how many are in flight, and
    forwards each result when that promise settles. *)

Inductive operator : Type :=
| MergeMapImplementations (hook : string)
    (* [.mergeMap((packages) => getImplementations(packages, hook))] *)
| MapMetadata.
    (* [.map((packages) => packages.map((pkg) => pkg.metadata))] *)

(** An observable handed to a caller: the subject it was built on and the
    operator applied to it. *)
Record observable : Type := {
  source : nat;
  piped : operator;
}.

(** What a subscriber is sent. *)
Inductive emission : Type :=
| Extensions (exts : list obj)
| Metadata (ms : list IPackageMetadata)
| Failure (err : value).

Record observer : Type := {
  subscriber : nat;
  through : operator;
}.

Record BehaviorSubject : Type := {
  _value : list IPackage;
  observers : list observer;
}.

(** A promise [mergeMap] is waiting for, and the subscriber its result goes
    to. *)
Record inner : Type := {
  destination : nat;
  started : nat;
  outcome : promise (list obj);
}.

(** ** The package finder, seen from the class

    [finder.watch(listener)] registers a listener and returns the function
    that cancels it.  The only listener the class ever registers is
    [(packages) => subject.next(packages)], so a registration is the subject
    it feeds; its cancellation function is known by the index of the
    registration. *)
Record registration : Type := {
  feeds : nat;
  cancelled : bool;
}.

(** [private activeWatch?: { close, subject }] *)
Record ActiveWatch : Type := {
  close : nat;
  subject : nat;
}.

(** The instance, the subjects it has allocated, the finder and the
    subscribers of the streams.

    Time is counted in abstract units.  A promise started at time [t] that
    takes [d] units settles at [t + d]; the continuations of the promises
    that have settled run at the end of the operation, or of the tick, in
    which they become due, the oldest promise first.

    Every operation below is a turn of the event loop of its own: the
    promises that take no time settle, and their continuations run, before
    the next operation starts.  Several reports of the finder, or a
    subscription and a report, inside one and the same turn are not
    described by this model. *)
Record world : Type := {
  activeWatch : option ActiveWatch;
  subjects : list BehaviorSubject;      (* every subject allocated so far *)
  watchers : list registration;         (* the finder's listeners *)
  finds : nat;                          (* calls of [finder.find()] so far *)
  clock : nat;
  pending : list inner;                 (* promises [mergeMap] waits for *)
  next_subscriber : nat;
  received : list (nat * emission);     (* (subscriber, emission), oldest first *)
}.

Definition new_PluginHooker : world := {|
  activeWatch := None; subjects := []; watchers := []; finds := 0;
  clock := 0; pending := []; next_subscriber := 0; received := [];
|}.

(** Field updates. *)
Definition set_activeWatch (v : option ActiveWatch) (w : world) : world :=
  {| activeWatch := v; subjects := subjects w; watchers := watchers w;
     finds := finds w; clock := clock w; pending := pending w;
     next_subscriber := next_subscriber w; received := received w |}.
Definition set_subjects (v : list BehaviorSubject) (w : world) : world :=
  {| activeWatch := activeWatch w; subjects := v; watchers := watchers w;
     finds := finds w; clock := clock w; pending := pending w;
     next_subscriber := next_subscriber w; received := received w |}.
Definition set_watchers (v : list registration) (w : world) : world :=
  {| activeWatch := activeWatch w; subjects := subjects w; watchers := v;
     finds := finds w; clock := clock w; pending := pending w;
     next_subscriber := next_subscriber w; received := received w |}.
Definition set_finds (v : nat) (w : world) : world :=
  {| activeWatch := activeWatch w; subjects := subjects w;
     watchers := watchers w; finds := v; clock := clock w;
     pending := pending w; next_subscriber := next_subscriber w;
     received := received w |}.
Definition set_clock (v : nat) (w : world) : world :=
  {| activeWatch := activeWatch w; subjects := subjects w;
     watchers := watchers w; finds := finds w; clock := v;
     pending := pending w; next_subscriber := next_subscriber w;
     received := received w |}.
Definition set_pending (v : list inner) (w : world) : world :=
  {| activeWatch := activeWatch w; subjects := subjects w;
     watchers := watchers w; finds := finds w; clock := clock w;
     pending := v; next_subscriber := next_subscriber w;
     received := received w |}.
Definition set_next_subscriber (v : nat) (w : world) : world :=
  {| activeWatch := activeWatch w; subjects := subjects w;
     watchers := watchers w; finds := finds w; clock := clock w;
     pending := pending w; next_subscriber := v; received := received w |}.
Definition set_received (v : list (nat * emission)) (w : world) : world :=
  {| activeWatch := activeWatch w; subjects := subjects w;
     watchers := watchers w; finds := finds w; clock := clock w;
     pending := pending w; next_subscriber := next_subscriber w;
     received := v |}.

(** *** Delivering values *)

(** An observer's [next(packages)], seen through its operator. *)
Definition push (packages : list IPackage) (w : world) (ob : observer)
  : world :=
  match through ob with
  | MapMetadata =>
      set_received
        (received w ++ [(subscriber ob, Metadata (map metadata packages))]) w
  | MergeMapImplementations hook =>
      set_pending
        (pending w ++ [{| destination := subscriber ob;
                          started := clock w;
                          outcome := getImplementations packages hook |}]) w
  end.

(** [subject.next(packages)] *)
Definition next (s : nat) (packages : list IPackage) (w : world) : world :=
  match subjects w !! s with
  | None => w
  | Some bs =>
      let bs' := {| _value := packages; observers := observers bs |} in
      fold_left (push packages) (observers bs)
        (set_subjects (<[s := bs']> (subjects w)) w)
  end.

(** Has the promise settled by time [now]? *)
Definition due (now : nat) (i : inner) : bool :=
  match outcome i with
  | Fulfils d _ | Rejects d _ => started i + d <=? now
  | Pending => false
  end.

(** What [mergeMap] forwards when an inner promise settles: its value, or its
    rejection as the stream's error (a case [getImplementations], which never
    rejects, does not produce). *)
Definition forwarded (i : inner) : list (nat * emission) :=
  match outcome i with
  | Fulfils _ exts => [(destination i, Extensions exts)]
  | Rejects _ err => [(destination i, Failure err)]
  | Pending => []
  end.

(** Run the continuations of every promise that has settled, oldest first. *)
Definition settle (w : world) : world :=
  let ready := List.filter (due (clock w)) (pending w) in
  let waiting := List.filter (λ i, negb (due (clock w) i)) (pending w) in
  set_received (received w ++ flat_map forwarded ready)
    (set_pending waiting w).

(** ** The class [PluginHooker] (lines 99-155) *)

(** [private get packageSubject()] *)
Definition packageSubject (w : world) : nat * world :=
  match activeWatch w with
  | Some aw => (subject aw, w)
  | None =>
      let subject := length (subjects w) in
      let close := length (watchers w) in
      (subject,
       set_activeWatch (Some {| close := close; subject := subject |})
         (set_watchers
            (watchers w ++ [{| feeds := subject; cancelled := false |}])
            (set_subjects
               (subjects w ++ [{| _value := []; observers := [] |}]) w)))
  end.

(** [public watch<T>(hook)] *)
Definition watch (hook : string) (w : world) : observable * world :=
  let '(s, w') := packageSubject w in
  ({| source := s; piped := MergeMapImplementations hook |}, w').

(** [public get packagesStream()] *)
Definition packagesStream (w : world) : observable * world :=
  let '(s, w') := packageSubject w in
  ({| source := s; piped := MapMetadata |}, w').

(** [public async load<T>(hook)] (the name [load] is taken by the loader of
    a package); [found] is what this call of [finder.find()] returns. *)
Definition load_hook (hook : string) (found : promise (list IPackage))
    (w : world) : promise (list obj) * world :=
  (packages ← found; getImplementations packages hook,
   set_finds (S (finds w)) w).

(** [public stopWatching()] *)
Definition stopWatching (w : world) : world :=
  match activeWatch w with
  | Some aw =>
      let cancel r := {| feeds := feeds r; cancelled := true |} in
      set_activeWatch None
        (set_watchers (alter cancel (close aw) (watchers w)) w)
  | None => w
  end.

(** [public get isWatching()] *)
Definition isWatching (w : world) : bool :=
  match activeWatch w with Some _ => true | None => false end.

(** ** What the callers and the finder do *)

(** [o.subscribe(...)], in a turn of its own: the new observer joins the
    subject and is handed its latest value at once.  Returns the identity of
    the new subscriber. *)
Definition subscribe (o : observable) (w : world) : nat * world :=
  let me := next_subscriber w in
  match subjects w !! source o with
  | None => (me, w)
  | Some bs =>
      let ob := {| subscriber := me; through := piped o |} in
      let bs' := {| _value := _value bs; observers := observers bs ++ [ob] |} in
      (me,
       settle
         (push (_value bs)
            (set_next_subscriber (S me)
               (set_subjects (<[source o := bs']> (subjects w)) w))
            ob))
  end.

(** The finder calls the listener of registration [r] with a package list,
    once, in a turn of its own.  A finder never calls a listener whose
    cancellation function has run. *)
Definition notify (r : nat) (packages : list IPackage) (w : world) : world :=
  match watchers w !! r with
  | Some reg =>
      if cancelled reg then w else settle (next (feeds reg) packages w)
  | None => w
  end.

(** One unit of time passes. *)
Definition tick (w : world) : world :=
  settle (set_clock (S (clock w)) w).

(** What subscriber [c] has received, oldest first. *)
Definition sent_to (c : nat) (log : list (nat * emission)) : list emission :=
  omap (λ ce, if decide (ce.1 = c) then Some ce.2 else None) log.

Definition received_by (c : nat) (w : world) : list emission :=
  sent_to c (received w).

(** A caller holds the observables it was given and may subscribe to any of
    them later. *)
Inductive action : Type :=
| CallWatch (hook : string)
| ReadPackagesStream
| Subscribe (n : nat)                 (* the [n]-th observable obtained *)
| CallStopWatching
| CallLoad (hook : string) (found : promise (list IPackage))
| Notify (r : nat) (packages : list IPackage)
| Tick.

Record scene : Type := {
  held : list observable;
  state : world;
}.

Definition fresh_scene : scene :=
  {| held := []; state := new_PluginHooker |}.

Definition step (sc : scene) (a : action) : scene :=
  match a with
  | CallWatch hook =>
      let '(o, w) := watch hook (state sc) in
      {| held := held sc ++ [o]; state := w |}
  | ReadPackagesStream =>
      let '(o, w) := packagesStream (state sc) in
      {| held := held sc ++ [o]; state := w |}
  | Subscribe n =>
      match held sc !! n with
      | Some o => {| held := held sc; state := (subscribe o (state sc)).2 |}
      | None => sc
      end
  | CallStopWatching =>
      {| held := held sc; state := stopWatching (state sc) |}
  | CallLoad hook found =>
      {| held := held sc; state := (load_hook hook found (state sc)).2 |}
  | Notify r packages =>
      {| held := held sc; state := notify r packages (state sc) |}
  | Tick => {| held := held sc; state := tick (state sc) |}
  end.

Definition run (acts : list action) (sc : scene) : scene :=
  fold_left step acts sc.

(** ** The resolver in the words of its contract

    The matching descriptors, package by package and, inside a package, in
    the order the package lists them. *)
Definition matching (packages : list IPackage) (hook : string)
  : list (IPackage * obj) :=
  flat_map
    (λ pkg, map (pair pkg) (List.filter (implements hook) (extensions pkg)))
    packages.

(** The entry a settled load contributes. *)
Definition classify (pkg : IPackage) (extInfo : obj) : promise obj :=
  match load pkg extInfo with
  | Fulfils d v => Fulfils d (loaded_extension extInfo (id pkg) v)
  | Rejects d err => Fulfils d (errored_extension extInfo (id pkg) err)
  | Pending => Pending
  end.

(** Awaiting a list of promises one after the other. *)
Fixpoint in_turn {A} (ps : list (promise A)) : promise (list A) :=
  match ps with
  | [] => mret []
  | p :: ps' => a ← p; l ← in_turn ps'; mret (a :: l)
  end.

(** The entry of a matching descriptor, by the way its load settled. *)
Definition entry_of (m : IPackage * obj) (ext : obj) : Prop :=
  match load m.1 m.2 with
  | Fulfils _ v => ext = loaded_extension m.2 (id m.1) v
  | Rejects _ err => ext = errored_extension m.2 (id m.1) err
  | Pending => False
  end.

Definition load_settles (m : IPackage * obj) : bool := settles (load m.1 m.2).
Definition load_delay (m : IPackage * obj) : nat := delay_of (load m.1 m.2).


(** The fields of a resolved entry: the package id, every descriptor field
    whose name is not reused by the entry, and the outcome of the load under
    [value] or [error]; a descriptor field named like the other of the two is
    carried over. *)
Definition keeps_fields (m : IPackage * obj) (ext : obj) : Prop :=
  get ext "packageId" = VStr (id m.1)
  ∧ (∀ k, k ≠ "packageId" → k ≠ "value" → k ≠ "error" → ext !! k = m.2 !! k)
  ∧ match load m.1 m.2 with
    | Fulfils _ v => ext !! "value" = Some v ∧ ext !! "error" = m.2 !! "error"
    | Rejects _ err =>
        ext !! "error" = Some err ∧ ext !! "value" = m.2 !! "value"
    | Pending => False
    end.

(** An entry that has every field of its descriptor, with the descriptor's
    value, and the id of the owning package. *)
Definition carries_descriptor (m : IPackage * obj) (ext : obj) : Prop :=
  m.2 ⊆ ext ∧ get ext "packageId" = VStr (id m.1).

(** ** Sample packages *)

Module Sample.

Definition meta (n : string) : IPackageMetadata :=
  {| name := n; author := None; version := None; summary := None |}.

(** [{hook, name}] *)
Definition descriptor (hook name : string) : obj :=
  <["hook" := VStr hook]> (<["name" := VStr name]> ∅).

(** A package whose loader takes [d] units of time and returns [v]. *)
Definition loading (i : string) (exts : list obj) (d : nat) (v : value)
  : IPackage :=
  {| id := i; metadata := meta i; extensions := exts;
     load := λ _, Fulfils d v |}.

(** A package whose loader rejects with [err] after [d] units of time. *)
Definition failing (i : string) (exts : list obj) (d : nat) (err : value)
  : IPackage :=
  {| id := i; metadata := meta i; extensions := exts;
     load := λ _, Rejects d err |}.

(** The packages of the end-to-end scenario. *)
Definition pkgA : IPackage :=
  loading "pkgA" [descriptor "render" "x"] 0 (VStr "R1").
Definition pkgB : IPackage :=
  failing "pkgB" [descriptor "render" "y"; descriptor "lint" "z"] 0
    (VStr "boom").

(** A descriptor with a hook-specific field called [packageId]. *)
Definition tagged : obj :=
  <["packageId" := VStr "q"]> (descriptor "render" "x").
Definition pkgTagged : IPackage := loading "p" [tagged] 0 (VStr "R1").

(** A descriptor with a hook-specific field called [error], in a package
    whose loader resolves to [undefined]. *)
Definition noted : obj :=
  <["error" := VStr "note"]> (descriptor "render" "x").
Definition pkgNoted : IPackage := loading "p" [noted] 0 VUndefined.

(** A package that takes five units of time to load its extension, and one
    that takes none. *)
Definition slow : IPackage :=
  loading "slow" [descriptor "render" "s"] 5 (VStr "S").
Definition fast : IPackage :=
  loading "fast" [descriptor "render" "f"] 0 (VStr "F").

End Sample.

(** ** Vocabulary for the properties of the class *)

(** The finder's listeners that have not been cancelled. *)
Definition live (w : world) : list registration :=
  List.filter (λ reg, negb (cancelled reg)) (watchers w).

(** A read of the shared package stream. *)
Definition is_demand (a : action) : bool :=
  match a with CallWatch _ | ReadPackagesStream => true | _ => false end.

Definition is_stop (a : action) : bool :=
  match a with CallStopWatching => true | _ => false end.

Definition is_notify (a : action) : bool :=
  match a with Notify _ _ => true | _ => false end.

(** [n] units of time pass. *)
Definition ticks (n : nat) (w : world) : world := Nat.iter n tick w.

(** The first session of an instance: the first registration with the
    finder, feeding the first subject. *)
Definition first_session : ActiveWatch := {| close := 0; subject := 0 |}.

(** The session recorded in [activeWatch], if any, is the one live
    registration of the finder, and it feeds the recorded subject. *)
Definition session_inv (w : world) : Prop :=
  match activeWatch w with
  | Some aw =>
      length (live w) = 1
      ∧ watchers w !! close aw
        = Some {| feeds := subject aw; cancelled := false |}
  | None => length (live w) = 0
  end.

(** What [next(packages)] at time [now] hands to one observer: a promise to
    wait for, through [mergeMap]; an emission, through [map]. *)
Definition task_for (packages : list IPackage) (now : nat) (ob : observer)
  : option inner :=
  match through ob with
  | MergeMapImplementations hook =>
      Some {| destination := subscriber ob; started := now;
              outcome := getImplementations packages hook |}
  | MapMetadata => None
  end.

Definition metadata_for (packages : list IPackage) (ob : observer)
  : option (nat * emission) :=
  match through ob with
  | MapMetadata => Some (subscriber ob, Metadata (map metadata packages))
  | MergeMapImplementations _ => None
  end.

(** The promises [mergeMap] waits for on behalf of subscriber [c]. *)
Definition pending_for (c : nat) (w : world) : list inner :=
  List.filter (λ i, bool_decide (destination i = c)) (pending w).

(** What a promise forwards when it settles. *)
Definition forwards (i : inner) : list emission := (forwarded i).*2.

(** The emission a resolution of [packages] for [hook] ends in. *)
Definition resolution (hook : string) (packages : list IPackage)
  : list emission :=
  match getImplementations packages hook with
  | Fulfils _ exts => [Extensions exts]
  | Rejects _ err => [Failure err]
  | Pending => []
  end.

(** A fresh replay container and the registration that feeds subject [s]. *)
Definition empty_subject : BehaviorSubject :=
  {| _value := []; observers := [] |}.
Definition listener_of (s : nat) : registration :=
  {| feeds := s; cancelled := false |}.


(** ** Well-formed worlds

    Subscriber identities are handed out in order, and a listener feeds a
    subject that exists. *)
Definition wf (w : world) : Prop :=
  Forall (λ i, destination i < next_subscriber w) (pending w)
  ∧ Forall (λ ce, ce.1 < next_subscriber w) (received w)
  ∧ Forall (λ bs, Forall (λ ob, subscriber ob < next_subscriber w)
                    (observers bs)) (subjects w)
  ∧ Forall (λ reg, feeds reg < length (subjects w)) (watchers w).

(** ** One subscriber's view of the world

    The time, what the subscriber has received and the promises it waits
    for. *)
Definition view : Type := nat * list emission * list inner.

Definition view_of (c : nat) (w : world) : view :=
  (clock w, received_by c w, pending_for c w).

(** The continuations of the settled promises run. *)
Definition vsettle (v : view) : view :=
  let '(now, got, waits) := v in
  (now, got ++ flat_map forwards (List.filter (due now) waits),
   List.filter (λ i, negb (due now i)) waits).

Definition vtick (v : view) : view :=
  let '(now, got, waits) := v in vsettle (S now, got, waits).

(** The subject is handed [packages] while the subscriber observes it
    through [mergeMap] for [hook]. *)
Definition vnext (c : nat) (hook : string) (packages : list IPackage)
    (v : view) : view :=
  let '(now, got, waits) := v in
  vsettle (now, got,
           waits ++ [{| destination := c; started := now;
                        outcome := getImplementations packages hook |}]).

(** Subscriber [c] observes subject [s] once, through [mergeMap] for
    [hook]. *)
Definition attached (c s : nat) (hook : string) (w : world) : Prop :=
  ∃ bs, subjects w !! s = Some bs
        ∧ List.filter (λ ob, bool_decide (subscriber ob = c)) (observers bs)
          = [{| subscriber := c; through := MergeMapImplementations hook |}].

(** ** The finder at work: package lists and the passing of time *)

Inductive source_event : Type :=
| Update (packages : list IPackage)
| Elapse.

(** Registration [r] is the finder's listener; every report is a turn of
    its own. *)
Definition play (r : nat) (w : world) (e : source_event) : world :=
  match e with
  | Update packages => notify r packages w
  | Elapse => tick w
  end.

Definition vplay (c : nat) (hook : string) (v : view) (e : source_event)
  : view :=
  match e with
  | Update packages => vnext c hook packages v
  | Elapse => vtick v
  end.

Definition updates_of (evs : list source_event) : list (list IPackage) :=
  omap (λ e, match e with Update packages => Some packages | Elapse => None end)
    evs.


(** The time at which a promise settles (for one that does). *)
Definition deadline (i : inner) : nat := started i + delay_of (outcome i).

(** No resolution takes less time than the one before it, the first taking
    at least [least]; all of them fulfil. *)
Fixpoint no_overtaking (hook : string) (least : nat)
    (updates : list (list IPackage)) : bool :=
  match updates with
  | [] => true
  | packages :: rest =>
      match getImplementations packages hook with
      | Fulfils d _ => (least <=? d) && no_overtaking hook d rest
      | _ => false
      end
  end.

(** The promises of a view were started in the past, fulfil within [most]
    units of time and are kept in the order in which they settle. *)
Definition in_order (most : nat) (v : view) : Prop :=
  let '(now, _, waits) := v in
  Forall (λ i, ∃ d exts, outcome i = Fulfils d exts ∧ started i ≤ now
                         ∧ d ≤ most) waits
  ∧ StronglySorted (λ i j, deadline i ≤ deadline j) waits.

(** What a view accounts for: what was received and what the promises
    waited for will forward. *)
Definition accounted (v : view) : list emission :=
  let '(_, got, waits) := v in got ++ flat_map forwards waits.

(** No promise of the view has settled without its result being
    forwarded. *)
Definition settled_forwarded (v : view) : Prop :=
  let '(now, _, waits) := v in Forall (λ i, due now i = false) waits.

(** ** While the finder stays silent *)

(** The empty list, as a stream built with [op] emits it. *)
Definition silence (op : operator) : emission :=
  match op with
  | MergeMapImplementations _ => Extensions []
  | MapMetadata => Metadata []
  end.

(** No subject has been handed a package list: each still holds the empty
    list it was created with, no promise is waited for, and every subscriber
    has received one emission, an empty list. *)
Definition calm (w : world) : Prop :=
  Forall (λ bs, _value bs = []) (subjects w)
  ∧ pending w = []
  ∧ (received w).*1 = seq 0 (next_subscriber w)
  ∧ Forall (λ ce, ce.2 = Extensions [] ∨ ce.2 = Metadata []) (received w).

(** ** Scripts without their calls of [load] *)

Definition is_load (a : action) : bool :=
  match a with CallLoad _ _ => true | _ => false end.

Definition without_loads (acts : list action) : list action :=
  List.filter (λ a, negb (is_load a)) acts.

(** ** Sample scripts *)

Module Script.
(** Two hook watches and a read of the metadata stream, with subscriptions
    and package lists in between. *)
Definition shared : list action :=
  [CallWatch "render"; Subscribe 0; Notify 0 [Sample.pkgA];
   CallWatch "lint"; ReadPackagesStream; Subscribe 2; Subscribe 1;
   Notify 0 [Sample.pkgA; Sample.pkgB]; Tick].

(** The finder reports the slow package, then replaces it by the fast
    one; five units of time pass. *)
Definition overtaking : list source_event :=
  [Update [Sample.slow]; Update [Sample.fast];
   Elapse; Elapse; Elapse; Elapse; Elapse].

(** The finder reports the fast package, then adds the slow one. *)
Definition orderly : list source_event :=
  [Update [Sample.fast]; Elapse; Update [Sample.fast; Sample.slow];
   Elapse; Elapse].

(** Callers read the streams, subscribe, stop and start again while the
    finder reports nothing. *)
Definition silent : list action :=
  [CallWatch "render"; Subscribe 0; ReadPackagesStream; Tick; Subscribe 1;
   CallStopWatching; CallWatch "lint"; Subscribe 2; Subscribe 0; Tick].
End Script.

(** ** Vocabulary for further properties of the code *)

(** A matching descriptor with no field of its own called [value] or
    [error], whose load does not settle with [undefined]. *)
Definition plain (m : IPackage * obj) : bool :=
  strict_eq (get m.2 "value") VUndefined
  && strict_eq (get m.2 "error") VUndefined
  && match load m.1 m.2 with
     | Fulfils _ v => strict_ne v VUndefined
     | Rejects _ err => strict_ne err VUndefined
     | Pending => true
     end.

(** Two packages that differ at most in their metadata and in what their
    loaders do with descriptors of other hooks. *)
Definition same_for (hook : string) (pkg pkg' : IPackage) : Prop :=
  id pkg = id pkg' ∧ extensions pkg = extensions pkg'
  ∧ ∀ extInfo, implements hook extInfo = true →
               load pkg extInfo = load pkg' extInfo.

(** Subscriber [c] observes subject [s] once, through [map] to the
    metadata. *)
Definition observing (c s : nat) (w : world) : Prop :=
  ∃ bs, subjects w !! s = Some bs
        ∧ List.filter (λ ob, bool_decide (subscriber ob = c)) (observers bs)
          = [{| subscriber := c; through := MapMetadata |}].

(** [packages.map((pkg) => pkg.metadata)], as an emission. *)
Definition metadata_of (packages : list IPackage) : emission :=
  Metadata (map metadata packages).

(** After a [stopWatching] at which [n] subjects and [b] subscribers
    existed: every live listener feeds a later subject, and the later
    subjects are observed by later subscribers only. *)
Definition orphaning (n b : nat) (w : world) : Prop :=
  Forall (λ reg, cancelled reg = false → n ≤ feeds reg) (watchers w)
  ∧ (∀ s bs, subjects w !! s = Some bs → n ≤ s →
             Forall (λ ob, b ≤ subscriber ob) (observers bs))
  ∧ n ≤ length (subjects w)
  ∧ b ≤ next_subscriber w.

Module Cases.

(** Package B of the scenario with a loader that never answers for the
    descriptors of other hooks than ["render"], and with other metadata. *)
Definition pkgB_picky : IPackage :=
  {| id := "pkgB"; metadata := Sample.meta "another name";
     extensions := extensions Sample.pkgB;
     load := λ extInfo,
       if implements "render" extInfo then Rejects 0 (VStr "boom")
       else Pending |}.

(** A consumer of [watch("render")] and one of [packagesStream] subscribe,
    the finder reports the slow package. *)
Definition before_stop : list action :=
  [CallWatch "render"; Subscribe 0; ReadPackagesStream; Subscribe 1;
   Notify 0 [Sample.slow]; Tick].

(** Watching is resumed; the finder reports to the old and to the new
    listener; consumers subscribe to the old and to the new observables. *)
Definition after_stop : list action :=
  [Notify 0 [Sample.fast]; CallWatch "render"; Notify 1 [Sample.fast];
   Subscribe 2; Subscribe 0; Tick; Tick; Tick; Tick; Tick;
   Notify 1 [Sample.pkgA]; Notify 0 [Sample.pkgA]].

(** Package lists reported while a consumer of [packagesStream] is
    attached. *)
Definition reports : list source_event :=
  [Update [Sample.slow]; Update [Sample.fast; Sample.pkgA]; Elapse;
   Update []].

End Cases.

(** The observable [watch(hook)] returns, subscribed to at once: the new
    subscriber and the world after. *)
Definition watch_and_subscribe (hook : string) (w : world) : nat * world :=
  subscribe (watch hook w).1 (watch hook w).2.

(** The observable [packagesStream] returns, subscribed to at once. *)
Definition stream_and_subscribe (w : world) : nat * world :=
  subscribe (packagesStream w).1 (packagesStream w).2.

(** The promises [mergeMap] starts for subscriber [c] of [watch(hook)]: one
    for each report, started at the time of the report, in the order of the
    reports. *)
Fixpoint arrivals (c : nat) (hook : string) (now : nat)
    (evs : list source_event) : list inner :=
  match evs with
  | [] => []
  | Update packages :: rest =>
      {| destination := c; started := now;
         outcome := getImplementations packages hook |}
      :: arrivals c hook now rest
  | Elapse :: rest => arrivals c hook (S now) rest
  end.

(** A view stands for the promises [started]; [settled] are those whose
    results were received, in the order in which they were. *)
Definition tracks (started : list inner) (v : view) (settled : list inner)
  : Prop :=
  let '(now, got, waits) := v in
  got = flat_map forwards settled
  ∧ settled ++ waits ≡ₚ started
  ∧ Forall (λ i, due now i = true) settled
  ∧ StronglySorted (λ i j, deadline i ≤ deadline j) settled
  ∧ Forall (λ i, due now i = false) waits.
(** * Properties *)

(** ** The promise monad *)

Lemma later_0 {A} (p : promise A) : later 0 p = p.
Proof. by destruct p. Qed.

Lemma later_later {A} (d d' : nat) (p : promise A) :
  later d (later d' p) = later (d + d') p.
Proof. destruct p; simpl; f_equal; lia. Qed.

Lemma await_ret {A B} (a : A) (k : A → promise B) : await (mret a) k = k a.
Proof. unfold mret, promise_ret; simpl. apply later_0. Qed.

Lemma await_later {A B} (d : nat) (p : promise A) (k : A → promise B) :
  await (later d p) k = later d (await p k).
Proof. destruct p; simpl; try done. by rewrite later_later. Qed.

Lemma await_assoc {A B C} (p : promise A) (k : A → promise B)
    (k' : B → promise C) :
  await (await p k) k' = await p (λ a, await (k a) k').
Proof. destruct p; simpl; try done. apply await_later. Qed.

Lemma await_ext {A B} (p : promise A) (k k' : A → promise B) :
  (∀ a, k a = k' a) → await p k = await p k'.
Proof. intros E. destruct p; simpl; try done. by rewrite E. Qed.

Lemma bind_await {A B} (p : promise A) (k : A → promise B) :
  p ≫= k = await p k.
Proof. reflexivity. Qed.

Lemma await_mret {A} (p : promise A) : await p mret = p.
Proof. destruct p; simpl; try done. unfold mret, promise_ret. f_equal; lia. Qed.

Lemma await_never_rejects {A B} (p : promise A) (k : A → promise B) :
  rejected p = false → (∀ a, rejected (k a) = false) →
  rejected (await p k) = false.
Proof.
  intros Hp Hk. destruct p as [d a| |]; simpl in *; try done.
  specialize (Hk a). by destruct (k a).
Qed.

(** Normalises both sides of an equation between awaited computations and
    strips the awaits they share. *)
Ltac await_step :=
  rewrite ?bind_await, ?await_assoc, ?await_ret;
  try (apply await_ext; intros ?).
Ltac await_norm := repeat progress await_step.

(** ** The resolver loop against its contract *)

Lemma classify_never_rejects pkg extInfo :
  rejected (classify pkg extInfo) = false.
Proof. unfold classify. by destruct (load pkg extInfo). Qed.

Lemma load_one_classify pkg extInfo exts :
  load_one pkg extInfo exts
  = await (classify pkg extInfo) (λ ext, mret (exts ++ [ext])).
Proof.
  unfold load_one, classify. rewrite bind_await.
  by destruct (load pkg extInfo).
Qed.

Lemma in_turn_app {A} (ps qs : list (promise A)) :
  in_turn (ps ++ qs)
  = await (in_turn ps) (λ l, await (in_turn qs) (λ l', mret (l ++ l'))).
Proof.
  induction ps as [|p ps IH]; cbn [in_turn app].
  - rewrite await_ret. cbn [app]. symmetry. apply await_mret.
  - await_step. rewrite ?bind_await, IH. by await_norm.
Qed.

Lemma for_contents_in_turn pkg contents exts :
  for_contents pkg contents exts
  = await (in_turn (map (classify pkg) contents)) (λ l, mret (exts ++ l)).
Proof.
  revert exts. induction contents as [|x xs IH]; intros exts;
    cbn [for_contents map in_turn].
  - by rewrite await_ret, app_nil_r.
  - rewrite !bind_await, load_one_classify. await_step.
    rewrite ?await_ret, IH. await_norm. by rewrite <- app_assoc.
Qed.

Lemma for_packages_in_turn packages hook exts :
  for_packages packages hook exts
  = await (in_turn (map (uncurry classify) (matching packages hook)))
      (λ l, mret (exts ++ l)).
Proof.
  revert exts. induction packages as [|pkg rest IH]; intros exts;
    cbn [for_packages matching flat_map map in_turn].
  - by rewrite await_ret, app_nil_r.
  - rewrite bind_await, for_contents_in_turn, map_app, in_turn_app.
    rewrite map_map; cbn [uncurry]. await_step.
    rewrite ?await_ret, IH. await_norm. by rewrite app_assoc.
Qed.

(** The loop does what the contract says: it awaits, one after the other,
    the entries of the matching descriptors. *)
Lemma getImplementations_in_turn packages hook :
  getImplementations packages hook
  = in_turn (map (uncurry classify) (matching packages hook)).
Proof.
  unfold getImplementations. rewrite for_packages_in_turn.
  cbn [app]. apply await_mret.
Qed.

Lemma in_turn_never_rejects {A} (ps : list (promise A)) :
  Forall (λ p, rejected p = false) ps → rejected (in_turn ps) = false.
Proof.
  induction 1 as [|p ps Hp _ IH]; cbn [in_turn]; [done|].
  rewrite bind_await. apply await_never_rejects; [done|]. intros a.
  rewrite bind_await. by apply await_never_rejects.
Qed.

Lemma getImplementations_never_rejects packages hook :
  rejected (getImplementations packages hook) = false.
Proof.
  rewrite getImplementations_in_turn. apply in_turn_never_rejects.
  apply Forall_forall. intros p [[pkg x] [<- _]]%list_elem_of_In%in_map_iff.
  apply classify_never_rejects.
Qed.

(** When every promise fulfils, so does the whole, with the values in the
    order of the promises and after the sum of their delays. *)
Lemma in_turn_fulfils {A} (ps : list (promise A)) (l : list A) :
  Forall2 (λ p a, ∃ d, p = Fulfils d a) ps l →
  in_turn ps = Fulfils (sum_list (map delay_of ps)) l.
Proof.
  induction 1 as [|p a ps l [d ->] _ IH]; cbn [in_turn]; [done|].
  rewrite !bind_await, IH. simpl. f_equal; lia.
Qed.

Lemma in_turn_pending {A} (ps : list (promise A)) :
  Forall (λ p, rejected p = false) ps →
  Exists (λ p, settles p = false) ps → in_turn ps = Pending.
Proof.
  induction 1 as [|p ps Hp Hps IH]; intros Hex; inversion Hex; subst;
    cbn [in_turn]; rewrite bind_await.
  - by destruct p.
  - rewrite IH by done. by destruct p.
Qed.

(** ** What a resolved entry looks like *)

Lemma matching_implements packages hook :
  Forall (λ m, implements hook m.2 = true) (matching packages hook).
Proof.
  apply Forall_forall. intros [pkg x] Hin%list_elem_of_In.
  apply in_flat_map in Hin as (pkg' & _ & Hin).
  apply in_map_iff in Hin as (x' & [= <- <-] & Hin).
  by apply filter_In in Hin as [_ ?].
Qed.

Lemma elem_of_matching packages hook pkg extInfo :
  (pkg, extInfo) ∈ matching packages hook
  ↔ pkg ∈ packages ∧ extInfo ∈ extensions pkg
    ∧ get extInfo "hook" = VStr hook.
Proof.
  rewrite list_elem_of_In. unfold matching. rewrite in_flat_map. split.
  - intros (pkg' & Hp & Hin). apply in_map_iff in Hin as (x & [= <- <-] & Hin).
    apply filter_In in Hin as [Hx Hh]. rewrite !list_elem_of_In.
    split_and!; try done. unfold implements, strict_eq in Hh.
    by apply bool_decide_eq_true in Hh.
  - rewrite !list_elem_of_In. intros (Hp & Hx & Hh). exists pkg. split; [done|].
    apply in_map, filter_In. split; [done|]. unfold implements, strict_eq.
    by apply bool_decide_eq_true.
Qed.

Lemma in_turn_entries (ms : list (IPackage * obj)) :
  forallb load_settles ms = true →
  ∃ l, in_turn (map (uncurry classify) ms)
       = Fulfils (sum_list (map load_delay ms)) l
       ∧ Forall2 entry_of ms l.
Proof.
  induction ms as [|[pkg x] ms IH]; cbn [forallb map in_turn sum_list].
  - intros _. by exists [].
  - intros [Hs Hms]%andb_prop. destruct (IH Hms) as (l & E & Hl).
    unfold load_settles in Hs. cbn [fst snd uncurry] in *.
    rewrite !bind_await, E. unfold classify, load_delay, entry_of.
    cbn [fst snd]. destruct (load pkg x) as [d v|d err|] eqn:El; [| |done].
    + exists (loaded_extension x (id pkg) v :: l). split.
      * simpl. f_equal; lia.
      * constructor; [|done]. cbn [fst snd]. by rewrite El.
    + exists (errored_extension x (id pkg) err :: l). split.
      * simpl. f_equal; lia.
      * constructor; [|done]. cbn [fst snd]. by rewrite El.
Qed.

(** The result of a resolution all of whose loads settle. *)
Lemma resolved_entries packages hook :
  forallb load_settles (matching packages hook) = true →
  ∃ l, getImplementations packages hook
       = Fulfils (sum_list (map load_delay (matching packages hook))) l
       ∧ Forall2 entry_of (matching packages hook) l.
Proof. rewrite getImplementations_in_turn. apply in_turn_entries. Qed.

Lemma forallb_false_Exists {A} (f : A → bool) (l : list A) :
  forallb f l = false → Exists (λ x, f x = false) l.
Proof.
  induction l as [|x l IH]; cbn [forallb]; [done|].
  intros [Hx|Hl]%andb_false_iff; [by left|right; auto].
Qed.

(** A resolution one of whose loads never settles never returns. *)
Lemma resolution_pending packages hook :
  forallb load_settles (matching packages hook) = false →
  getImplementations packages hook = Pending.
Proof.
  intros H%forallb_false_Exists. rewrite getImplementations_in_turn.
  apply in_turn_pending.
  - apply Forall_forall. intros p [[pkg x] [<- _]]%list_elem_of_In%in_map_iff.
    apply classify_never_rejects.
  - apply Exists_fmap. eapply Exists_impl; [exact H|].
    intros [pkg x]. unfold load_settles, classify, compose; simpl.
    by destruct (load pkg x).
Qed.

Lemma get_insert_eq (o : obj) k v : get (<[k := v]> o) k = v.
Proof. unfold get. by rewrite lookup_insert_eq. Qed.

Lemma get_insert_ne (o : obj) k k' v : k ≠ k' → get (<[k := v]> o) k' = get o k'.
Proof. intros. unfold get. by rewrite lookup_insert_ne. Qed.

Lemma entry_keeps_fields m ext : entry_of m ext → keeps_fields m ext.
Proof.
  destruct m as [pkg x]. unfold entry_of, keeps_fields; cbn [fst snd].
  destruct (load pkg x) as [d v|d err|]; [| |done]; intros ->.
  - unfold loaded_extension. split_and!.
    + by rewrite get_insert_ne, get_insert_eq.
    + intros k ? ? ?. by rewrite !lookup_insert_ne.
    + by rewrite lookup_insert_eq.
    + by rewrite !lookup_insert_ne.
  - unfold errored_extension. split_and!.
    + by rewrite get_insert_eq.
    + intros k ? ? ?. by rewrite !lookup_insert_ne.
    + by rewrite lookup_insert_ne, lookup_insert_eq.
    + by rewrite !lookup_insert_ne.
Qed.

Lemma entry_hook m ext : entry_of m ext → get ext "hook" = get m.2 "hook".
Proof.
  destruct m as [pkg x]. unfold entry_of; cbn [fst snd].
  destruct (load pkg x) as [d v|d err|]; [| |done]; intros ->.
  - unfold loaded_extension. by rewrite !get_insert_ne.
  - unfold errored_extension. by rewrite !get_insert_ne.
Qed.

Lemma implements_hook hook extInfo :
  implements hook extInfo = true ↔ get extInfo "hook" = VStr hook.
Proof. unfold implements, strict_eq. apply bool_decide_eq_true. Qed.

Lemma Forall2_and_Forall_l {A B} (P : A → Prop) (R : A → B → Prop) l k :
  Forall P l → Forall2 R l k → Forall2 (λ a b, P a ∧ R a b) l k.
Proof.
  intros HP HR. induction HR as [|a b l k Hab _ IH]; [constructor|].
  apply Forall_cons in HP as [Ha HP]. constructor; auto.
Qed.

(** ** The resolver *)

(** C1, as the code has it.  When the loads of the matching descriptors
    settle, [getImplementations] returns one entry for each descriptor whose
    [hook] is the requested one, in the order of the packages and, inside a
    package, of its descriptors; every entry has the requested hook and the id
    of the owning package, and it has the fields of its descriptor except
    that [packageId] and the field receiving the outcome ([value] when the
    load fulfilled, [error] when it rejected) are overwritten. *)
Theorem resolve_order_filter_fields packages hook :
  forallb load_settles (matching packages hook) = true →
  ∃ d l,
    getImplementations packages hook = Fulfils d l
    ∧ Forall2
        (λ m ext, get m.2 "hook" = VStr hook ∧ get ext "hook" = VStr hook
                  ∧ keeps_fields m ext)
        (matching packages hook) l
    ∧ (∀ pkg extInfo,
         (pkg, extInfo) ∈ matching packages hook
         ↔ pkg ∈ packages ∧ extInfo ∈ extensions pkg
           ∧ get extInfo "hook" = VStr hook).
Proof.
  intros Hs. destruct (resolved_entries _ _ Hs) as (l & E & Hl).
  eexists _, l. split_and!; [exact E| |apply elem_of_matching].
  pose proof (matching_implements packages hook) as Hm.
  eapply Forall2_impl; [exact (Forall2_and_Forall_l _ _ _ _ Hm Hl)|].
  intros m ext [Hh%implements_hook Hent]; cbn beta in *.
  split_and!; [done| |by apply entry_keeps_fields].
  by rewrite (entry_hook _ _ Hent).
Qed.

Lemma resolve_order_filter_fields_witness :
  ∃ d l,
    getImplementations [Sample.pkgA; Sample.pkgB] "render" = Fulfils d l
    ∧ Forall2
        (λ m ext, get m.2 "hook" = VStr "render"
                  ∧ get ext "hook" = VStr "render" ∧ keeps_fields m ext)
        (matching [Sample.pkgA; Sample.pkgB] "render") l
    ∧ (∀ pkg extInfo,
         (pkg, extInfo) ∈ matching [Sample.pkgA; Sample.pkgB] "render"
         ↔ pkg ∈ [Sample.pkgA; Sample.pkgB] ∧ extInfo ∈ extensions pkg
           ∧ get extInfo "hook" = VStr "render").
Proof.
  apply (resolve_order_filter_fields [Sample.pkgA; Sample.pkgB] "render").
  vm_compute. reflexivity.
Defined.

(** C1 as the claim words it fails: an entry does not always carry every
    field of its descriptor.  The descriptor [{hook: "render", name: "x",
    packageId: "q"}] of package ["p"] resolves to an entry whose [packageId]
    is ["p"]. *)
Lemma descriptor_field_overwritten :
  ¬ (∀ packages hook d l,
       getImplementations packages hook = Fulfils d l →
       Forall2 carries_descriptor (matching packages hook) l).
Proof.
  intros H.
  specialize (H [Sample.pkgTagged] "render" 0
                [loaded_extension Sample.tagged "p" (VStr "R1")]).
  assert (E : getImplementations [Sample.pkgTagged] "render"
              = Fulfils 0 [loaded_extension Sample.tagged "p" (VStr "R1")])
    by (vm_compute; reflexivity).
  specialize (H E).
  assert (M : matching [Sample.pkgTagged] "render"
              = [(Sample.pkgTagged, Sample.tagged)])
    by (vm_compute; reflexivity).
  rewrite M in H. apply Forall2_cons_1 in H as [[Hsub _] _].
  cbn [snd] in Hsub.
  pose proof (lookup_weaken Sample.tagged _ "packageId" (VStr "q")
                eq_refl Hsub) as Hq.
  vm_compute in Hq. discriminate Hq.
Qed.

(** C2.  A failing load is never thrown upward: [getImplementations] never
    rejects.  When the loads of the matching descriptors settle it returns
    normally with exactly one entry for each of them, in order: the errored
    entry carrying the error for a load that rejected, the loaded entry
    carrying the value for a load that fulfilled. *)
Theorem load_failure_isolated packages hook :
  rejected (getImplementations packages hook) = false
  ∧ (forallb load_settles (matching packages hook) = true →
     ∃ d l,
       getImplementations packages hook = Fulfils d l
       ∧ length l = length (matching packages hook)
       ∧ Forall2
           (λ m ext,
              match load m.1 m.2 with
              | Rejects _ err =>
                  ext = errored_extension m.2 (id m.1) err
                  ∧ get ext "error" = err
              | Fulfils _ v =>
                  ext = loaded_extension m.2 (id m.1) v
                  ∧ get ext "value" = v
              | Pending => False
              end)
           (matching packages hook) l).
Proof.
  split; [apply getImplementations_never_rejects|].
  intros Hs. destruct (resolved_entries _ _ Hs) as (l & E & Hl).
  eexists _, l. split_and!; [exact E|symmetry; by eapply Forall2_length|].
  eapply Forall2_impl; [exact Hl|]. intros [pkg x] ext. unfold entry_of.
  cbn [fst snd]. destruct (load pkg x); [| |done]; intros ->; split; try done.
  - unfold loaded_extension. by rewrite get_insert_eq.
  - unfold errored_extension. by rewrite get_insert_ne, get_insert_eq.
Qed.

(** The scenario of the specification: package A's extension loads, package
    B's fails with ["boom"]. *)
Lemma load_failure_isolated_witness :
  ∃ d l,
    getImplementations [Sample.pkgB; Sample.pkgA] "render" = Fulfils d l
    ∧ length l = length (matching [Sample.pkgB; Sample.pkgA] "render")
    ∧ Forall2
        (λ m ext,
           match load m.1 m.2 with
           | Rejects _ err =>
               ext = errored_extension m.2 (id m.1) err
               ∧ get ext "error" = err
           | Fulfils _ v =>
               ext = loaded_extension m.2 (id m.1) v ∧ get ext "value" = v
           | Pending => False
           end)
        (matching [Sample.pkgB; Sample.pkgA] "render") l.
Proof.
  apply (load_failure_isolated [Sample.pkgB; Sample.pkgA] "render").
  vm_compute. reflexivity.
Defined.

(** ** The type predicates *)

Lemma strict_ne_true a b : strict_ne a b = true ↔ a ≠ b.
Proof.
  unfold strict_ne, strict_eq. rewrite negb_true_iff.
  apply bool_decide_eq_false.
Qed.

Lemma strict_ne_false a b : strict_ne a b = false ↔ a = b.
Proof.
  unfold strict_ne, strict_eq. rewrite negb_false_iff.
  apply bool_decide_eq_true.
Qed.

(** C10, as the code has it.  [isLoaded] holds exactly of the objects with a
    defined [value] and [isErrored] exactly of those with a defined [error].
    The entry of a load that resolved to [undefined] is never loaded, and it
    is not errored exactly when its descriptor has no defined field called
    [error], a field the entry carries over. *)
Theorem predicates_classify (ext extInfo : obj) (packageId : string) :
  (isLoaded ext = true ↔ get ext "value" ≠ VUndefined)
  ∧ (isErrored ext = true ↔ get ext "error" ≠ VUndefined)
  ∧ isLoaded (loaded_extension extInfo packageId VUndefined) = false
  ∧ (isErrored (loaded_extension extInfo packageId VUndefined) = false
     ↔ get extInfo "error" = VUndefined).
Proof.
  unfold isLoaded, isErrored, loaded_extension. split_and!.
  - apply strict_ne_true.
  - apply strict_ne_true.
  - rewrite get_insert_eq. by apply strict_ne_false.
  - rewrite !get_insert_ne by done. apply strict_ne_false.
Qed.

(** C10 as the claim words it fails.  The descriptor [{hook: "render",
    name: "x", error: "note"}] of a package whose loader resolves to
    [undefined] yields an entry of which [isErrored] holds. *)
Lemma undefined_value_yet_errored :
  ¬ (∀ m ext d,
       load m.1 m.2 = Fulfils d VUndefined → entry_of m ext →
       isLoaded ext = false ∧ isErrored ext = false).
Proof.
  intros H.
  destruct (H (Sample.pkgNoted, Sample.noted)
              (loaded_extension Sample.noted "p" VUndefined) 0)
    as [_ Hne]; [reflexivity|reflexivity|].
  vm_compute in Hne. discriminate Hne.
Qed.

(** The same entry is what the resolver returns for that package. *)
Lemma noted_entry_resolved :
  getImplementations [Sample.pkgNoted] "render"
  = Fulfils 0 [loaded_extension Sample.noted "p" VUndefined].
Proof. vm_compute. reflexivity. Qed.

(** ** [load] *)

Lemma no_match_matching packages hook :
  (∀ pkg extInfo, pkg ∈ packages → extInfo ∈ extensions pkg →
                  get extInfo "hook" ≠ VStr hook) →
  matching packages hook = [].
Proof.
  intros H. destruct (matching packages hook) as [|[pkg x] ms] eqn:E; [done|].
  assert (Hin : (pkg, x) ∈ matching packages hook) by (rewrite E; left).
  apply elem_of_matching in Hin as (Hp & Hx & Hh). by destruct (H pkg x).
Qed.

(** C7.  [load] calls [finder.find()] once and resolves the hook against what
    it returns: it rejects exactly when [find()] rejects, with the same
    error; when [find()] fulfils with a snapshot it returns the resolution
    of the snapshot, which for a snapshot without a matching descriptor is
    the empty list. *)
Theorem load_resolves_snapshot hook found w :
  finds (load_hook hook found w).2 = S (finds w)
  ∧ (∀ d err,
       (load_hook hook found w).1 = Rejects d err ↔ found = Rejects d err)
  ∧ (∀ d packages,
       (load_hook hook (Fulfils d packages) w).1
       = later d (getImplementations packages hook))
  ∧ (∀ d packages,
       (∀ pkg extInfo, pkg ∈ packages → extInfo ∈ extensions pkg →
                       get extInfo "hook" ≠ VStr hook) →
       (load_hook hook (Fulfils d packages) w).1 = Fulfils d []).
Proof.
  unfold load_hook; cbn [fst snd]. split_and!.
  - done.
  - intros d err. rewrite bind_await. destruct found as [d' ps|d' e|]; simpl.
    + pose proof (getImplementations_never_rejects ps hook) as Hr.
      destruct (getImplementations ps hook); simpl in *; by split.
    + split; intros [= -> ->]; reflexivity.
    + by split.
  - intros d packages. by rewrite bind_await.
  - intros d packages Hno. rewrite bind_await. simpl.
    rewrite getImplementations_in_turn, (no_match_matching _ _ Hno). simpl.
    unfold mret, promise_ret. f_equal; lia.
Qed.

(** [load("unknown-hook")] against the packages of the scenario. *)
Lemma load_resolves_snapshot_witness :
  (load_hook "unknown-hook" (Fulfils 3 [Sample.pkgA; Sample.pkgB])
     new_PluginHooker).1
  = Fulfils 3 [].
Proof.
  apply (load_resolves_snapshot "unknown-hook"
           (Fulfils 3 [Sample.pkgA; Sample.pkgB]) new_PluginHooker).
  intros pkg x Hp Hx. 
  repeat (apply elem_of_cons in Hp as [->|Hp]);
    [| |by apply elem_of_nil in Hp];
    cbn [extensions Sample.pkgA Sample.pkgB Sample.loading Sample.failing]
      in Hx;
    repeat (apply elem_of_cons in Hx as [->|Hx]);
    try (by apply elem_of_nil in Hx); vm_compute; discriminate.
Defined.

(** ** The watch state of the class *)

Lemma live_app w regs :
  List.filter (λ reg, negb (cancelled reg)) (watchers w ++ regs)
  = live w ++ List.filter (λ reg, negb (cancelled reg)) regs.
Proof. apply List.filter_app. Qed.

(** Cancelling a live registration leaves one live registration fewer. *)
Lemma cancel_live (regs : list registration) (c : nat) reg :
  regs !! c = Some reg → cancelled reg = false →
  S (length (List.filter (λ reg, negb (cancelled reg))
       (alter (λ r, {| feeds := feeds r; cancelled := true |}) c regs)))
  = length (List.filter (λ reg, negb (cancelled reg)) regs).
Proof.
  revert c. induction regs as [|r regs IH]; intros c Hc Hl; [done|].
  destruct c as [|c]; simpl in *.
  - injection Hc as ->. by rewrite Hl.
  - destruct (negb (cancelled r)); simpl; rewrite <- (IH c); auto.
Qed.

Lemma packageSubject_session_inv w :
  session_inv w → session_inv (packageSubject w).2.
Proof.
  unfold packageSubject, session_inv.
  destruct (activeWatch w) as [aw|] eqn:E; cbn [snd]; [by rewrite E|].
  intros H0. cbn [activeWatch set_activeWatch close subject].
  unfold live. cbn [watchers set_activeWatch set_watchers set_subjects].
  rewrite live_app, length_app, H0. split; [done|].
  by rewrite lookup_app_r, Nat.sub_diag.
Qed.

Lemma stopWatching_session_inv w :
  session_inv w → session_inv (stopWatching w).
Proof.
  unfold stopWatching, session_inv.
  destruct (activeWatch w) as [aw|] eqn:E; [|by rewrite E].
  intros [H1 Hc]. cbn [activeWatch set_activeWatch].
  unfold live in *. cbn [watchers set_activeWatch set_watchers].
  pose proof (cancel_live _ _ _ Hc eq_refl) as Hlen. lia.
Qed.

(** *** How the operations act on the fields of the world *)

Lemma world_eta w :
  {| activeWatch := activeWatch w; subjects := subjects w;
     watchers := watchers w; finds := finds w; clock := clock w;
     pending := pending w; next_subscriber := next_subscriber w;
     received := received w |} = w.
Proof. by destruct w. Qed.

(** [next] in closed form: what the observers are handed. *)
Lemma fold_push packages obs w :
  fold_left (push packages) obs w
  = set_received (received w ++ omap (metadata_for packages) obs)
      (set_pending (pending w ++ omap (task_for packages (clock w)) obs) w).
Proof.
  revert w. induction obs as [|ob obs IH]; intros w.
  - simpl. unfold set_received, set_pending; simpl.
    rewrite !app_nil_r. symmetry. apply world_eta.
  - cbn [fold_left]. rewrite IH. unfold push, task_for, metadata_for.
    cbn [omap list_omap]. destruct (through ob); simpl;
      unfold set_received, set_pending; simpl; by rewrite <- ?app_assoc.
Qed.

Lemma next_closed s packages w bs :
  subjects w !! s = Some bs →
  next s packages w
  = set_received (received w ++ omap (metadata_for packages) (observers bs))
      (set_pending
         (pending w ++ omap (task_for packages (clock w)) (observers bs))
         (set_subjects
            (<[s := {| _value := packages; observers := observers bs |}]>
               (subjects w)) w)).
Proof. intros E. unfold next. rewrite E. by rewrite fold_push. Qed.

Lemma subscribe_closed o w bs :
  subjects w !! source o = Some bs →
  subscribe o w
  = (next_subscriber w,
     let ob := {| subscriber := next_subscriber w; through := piped o |} in
     settle
       (set_received (received w ++ option_list (metadata_for (_value bs) ob))
          (set_pending
             (pending w ++ option_list (task_for (_value bs) (clock w) ob))
             (set_next_subscriber (S (next_subscriber w))
                (set_subjects
                   (<[source o := {| _value := _value bs;
                                     observers := observers bs ++ [ob] |}]>
                      (subjects w)) w))))).
Proof.
  intros E. unfold subscribe. rewrite E. f_equal. cbn zeta. f_equal.
  unfold push, task_for, metadata_for; cbn [through subscriber].
  destruct (piped o); unfold set_received, set_pending; simpl;
    by rewrite ?app_nil_r.
Qed.

Lemma run_snoc acts a sc : run (acts ++ [a]) sc = step (run acts sc) a.
Proof. unfold run. by rewrite fold_left_app. Qed.

Lemma subscribe_session o w :
  activeWatch (subscribe o w).2 = activeWatch w
  ∧ watchers (subscribe o w).2 = watchers w.
Proof.
  unfold subscribe. destruct (subjects w !! source o); [|done].
  unfold push. by destruct (piped o).
Qed.

Lemma notify_session r packages w :
  activeWatch (notify r packages w) = activeWatch w
  ∧ watchers (notify r packages w) = watchers w.
Proof.
  unfold notify. destruct (watchers w !! r) as [reg|]; [|done].
  destruct (cancelled reg); [done|]. unfold next.
  destruct (subjects w !! feeds reg); [|done]. by rewrite fold_push.
Qed.

Lemma session_inv_frame w w' :
  activeWatch w' = activeWatch w → watchers w' = watchers w →
  session_inv w → session_inv w'.
Proof. unfold session_inv, live. by intros -> ->. Qed.

Lemma step_session_inv sc a :
  session_inv (state sc) → session_inv (state (step sc a)).
Proof.
  intros H. destruct a as [hook| |n| |hook found|r packages|]; simpl.
  - unfold watch. pose proof (packageSubject_session_inv _ H) as H'.
    by destruct (packageSubject (state sc)).
  - unfold packagesStream. pose proof (packageSubject_session_inv _ H) as H'.
    by destruct (packageSubject (state sc)).
  - destruct (held sc !! n) as [o|]; [|done]. simpl.
    destruct (subscribe_session o (state sc)). by eapply session_inv_frame.
  - by apply stopWatching_session_inv.
  - by eapply session_inv_frame.
  - destruct (notify_session r packages (state sc)).
    by eapply session_inv_frame.
  - by eapply session_inv_frame.
Qed.

Lemma run_session_inv acts : session_inv (state (run acts fresh_scene)).
Proof.
  induction acts as [|a acts IH] using rev_ind.
  - done.
  - rewrite run_snoc. by apply step_session_inv.
Qed.

(** Until the first [stopWatching], an instance is either untouched or on
    its first session, which every observable handed out is built on. *)
Lemma run_first_session acts :
  existsb is_stop acts = false →
  let sc := run acts fresh_scene in
  length (watchers (state sc)) = (if existsb is_demand acts then 1 else 0)
  ∧ length (subjects (state sc)) = (if existsb is_demand acts then 1 else 0)
  ∧ activeWatch (state sc)
    = (if existsb is_demand acts then Some first_session else None)
  ∧ Forall (λ o, source o = 0) (held sc)
  ∧ length (held sc) = length (List.filter is_demand acts).
Proof.
  induction acts as [|a acts IH] using rev_ind; [done|].
  rewrite existsb_app, orb_false_iff. intros [Hs Ha]. cbn [existsb] in Ha.
  rewrite run_snoc, existsb_app, List.filter_app, length_app.
  destruct (IH Hs) as (Hw & Hsub & Haw & Hh & Hl). clear IH.
  set (sc := run acts fresh_scene) in *.
  assert (Hdemand : ∀ op,
             let w' := (packageSubject (state sc)).2 in
             let o := {| source := (packageSubject (state sc)).1;
                         piped := op |} in
             length (watchers w') = 1 ∧ length (subjects w') = 1
             ∧ activeWatch w' = Some first_session
             ∧ Forall (λ o, source o = 0) (held sc ++ [o])).
  { intros op. unfold packageSubject. rewrite Haw.
    destruct (existsb is_demand acts); cbn [fst snd].
    - split_and!; try done. apply Forall_app. split; [done|].
      by repeat constructor.
    - simpl. rewrite !length_app, Hw, Hsub. split_and!; try done.
      apply Forall_app. split; [done|]. by repeat constructor. }
  destruct a as [hook| |n| |hook found|r packages|]; try discriminate Ha;
    cbn [existsb is_demand orb List.filter length].
  - rewrite orb_true_r. cbn [step]. unfold watch.
    specialize (Hdemand (MergeMapImplementations hook)).
    destruct (packageSubject (state sc)) as [s w']; cbn [fst snd] in *.
    cbn [state held]. rewrite length_app. cbn [length].
    destruct Hdemand as (? & ? & ? & ?). split_and!; try done. lia.
  - rewrite orb_true_r. cbn [step]. unfold packagesStream.
    specialize (Hdemand MapMetadata).
    destruct (packageSubject (state sc)) as [s w']; cbn [fst snd] in *.
    cbn [state held]. rewrite length_app. cbn [length].
    destruct Hdemand as (? & ? & ? & ?). split_and!; try done. lia.
  - rewrite orb_false_r, Nat.add_0_r. cbn [step].
    destruct (held sc !! n) as [o|]; [|done]. cbn [state held].
    destruct (subscribe_session o (state sc)) as [-> ->].
    split_and!; try done. unfold subscribe.
    destruct (subjects (state sc) !! source o); [|done].
    unfold push. destruct (piped o); simpl; by rewrite length_insert.
  - rewrite orb_false_r, Nat.add_0_r. by cbn [step state held].
  - rewrite orb_false_r, Nat.add_0_r. cbn [step state held].
    destruct (notify_session r packages (state sc)) as [-> ->].
    split_and!; try done. unfold notify.
    destruct (watchers (state sc) !! r) as [reg|]; [|done].
    destruct (cancelled reg); [done|]. unfold next.
    destruct (subjects (state sc) !! feeds reg); [|done].
    rewrite fold_push. simpl. by rewrite length_insert.
  - rewrite orb_false_r, Nat.add_0_r. by cbn [step state held].
Qed.

(** C3.  At any time the finder has at most one live listener of the
    instance: exactly one while the instance is watching, none otherwise.
    Whatever the callers and the finder do before the first [stopWatching],
    once the shared stream has been read the finder has been asked to watch
    exactly once, and every observable handed out by [watch] and
    [packagesStream] is built on the subject of that one session. *)
Theorem one_shared_session acts :
  let sc := run acts fresh_scene in
  length (live (state sc)) = (if isWatching (state sc) then 1 else 0)
  ∧ (existsb is_stop acts = false → existsb is_demand acts = true →
     length (watchers (state sc)) = 1
     ∧ length (subjects (state sc)) = 1
     ∧ activeWatch (state sc) = Some first_session
     ∧ Forall (λ o, source o = subject first_session) (held sc)
     ∧ length (held sc) = length (List.filter is_demand acts)).
Proof.
  cbn zeta. split.
  - pose proof (run_session_inv acts) as H. unfold session_inv, isWatching in *.
    destruct (activeWatch _); [by destruct H|done].
  - intros Hs Hd. pose proof (run_first_session acts Hs) as H.
    cbn zeta in H. by rewrite Hd in H.
Qed.

Lemma one_shared_session_witness :
  length (watchers (state (run Script.shared fresh_scene))) = 1
  ∧ length (subjects (state (run Script.shared fresh_scene))) = 1
  ∧ activeWatch (state (run Script.shared fresh_scene)) = Some first_session
  ∧ Forall (λ o, source o = subject first_session)
      (held (run Script.shared fresh_scene))
  ∧ length (held (run Script.shared fresh_scene))
    = length (List.filter is_demand Script.shared).
Proof.
  apply (one_shared_session Script.shared); reflexivity.
Defined.

(** C6.  A fresh instance is not watching; it is watching after a read of the
    shared stream by [watch] or by [packagesStream]; it is not after
    [stopWatching].  [stopWatching] on an instance that is not watching
    changes nothing.  A read after [stopWatching] registers a new listener
    with the finder, feeding a new subject that holds the empty list and has
    no observer. *)
Theorem watching_toggles (w : world) (hook : string) :
  isWatching new_PluginHooker = false
  ∧ isWatching (watch hook w).2 = true
  ∧ isWatching (packagesStream w).2 = true
  ∧ isWatching (stopWatching w) = false
  ∧ stopWatching (set_activeWatch None w) = set_activeWatch None w
  ∧ stopWatching (stopWatching w) = stopWatching w
  ∧ (let w0 := stopWatching w in
     let s := length (subjects w0) in
     (watch hook w0).1 = {| source := s; piped := MergeMapImplementations hook |}
     ∧ (packagesStream w0).1 = {| source := s; piped := MapMetadata |}
     ∧ (packagesStream w0).2 = (watch hook w0).2
     ∧ subjects (watch hook w0).2 = subjects w0 ++ [empty_subject]
     ∧ watchers (watch hook w0).2 = watchers w0 ++ [listener_of s]
     ∧ activeWatch (watch hook w0).2
       = Some {| close := length (watchers w0); subject := s |}).
Proof.
  split_and!.
  - done.
  - unfold watch, packageSubject, isWatching.
    by destruct (activeWatch w) eqn:E; cbn [snd]; [rewrite E|].
  - unfold packagesStream, packageSubject, isWatching.
    by destruct (activeWatch w) eqn:E; cbn [snd]; [rewrite E|].
  - unfold stopWatching, isWatching.
    by destruct (activeWatch w) eqn:E; [|rewrite E].
  - done.
  - unfold stopWatching at 1.
    assert (activeWatch (stopWatching w) = None) as ->; [|done].
    unfold stopWatching. by destruct (activeWatch w) eqn:E; [|rewrite E].
  - cbn zeta.
    assert (E : activeWatch (stopWatching w) = None).
    { unfold stopWatching. by destruct (activeWatch w) eqn:E; [|rewrite E]. }
    unfold watch, packagesStream, packageSubject. rewrite E. by cbn.
Qed.

(** No operation looks at the count of [finder.find()] calls. *)
Lemma step_set_finds a sc n :
  is_load a = false →
  step {| held := held sc; state := set_finds n (state sc) |} a
  = {| held := held (step sc a); state := set_finds n (state (step sc a)) |}.
Proof.
  intros Ha. destruct sc as [h w], w as [aw ss ws f k p ns rc].
  destruct a as [hook| |i| |hook found|r packages|]; try discriminate Ha;
    cbn [step held state].
  - unfold watch, packageSubject. simpl. by destruct aw.
  - unfold packagesStream, packageSubject. simpl. by destruct aw.
  - destruct (h !! i) as [o|]; [|done]. unfold subscribe. simpl.
    destruct (ss !! source o); [|done]. unfold push. simpl.
    by destruct (piped o).
  - unfold stopWatching. simpl. by destruct aw.
  - unfold notify. simpl. destruct (ws !! r) as [reg|]; [|done].
    destruct (cancelled reg); [done|]. unfold next. simpl.
    destruct (ss !! feeds reg); [|done]. by rewrite !fold_push.
  - done.
Qed.

Lemma run_without_loads acts sc sc' n :
  held sc = held sc' → state sc = set_finds n (state sc') →
  held (run acts sc) = held (run (without_loads acts) sc')
  ∧ ∃ n', state (run acts sc)
          = set_finds n' (state (run (without_loads acts) sc')).
Proof.
  revert sc sc' n. induction acts as [|a acts IH]; intros sc sc' n Hh Hs.
  - split; [done|by exists n].
  - cbn [run fold_left without_loads List.filter].
    destruct (is_load a) eqn:Ha; cbn [negb].
    + destruct a; try discriminate Ha. apply (IH _ sc' (S (finds (state sc)))).
      * done.
      * cbn [step state load_hook snd]. rewrite Hs.
        by destruct (state sc').
    + cbn [fold_left]. apply (IH _ (step sc' a) n).
      * destruct sc as [h w]. simpl in Hh, Hs. subst h w.
        by rewrite (step_set_finds a sc' n Ha).
      * destruct sc as [h w]. simpl in Hh, Hs. subst h w.
        by rewrite (step_set_finds a sc' n Ha).
Qed.

(** C8.  [load] changes nothing but the count of [finder.find()] calls: the
    instance is watching afterwards exactly if it was before, the session,
    the subjects and their observers are the same, no promise is added to
    those the streams wait for and no subscriber is sent anything.  Nor does
    it matter later: whatever the callers and the finder do, the instance,
    its streams and what every subscriber receives are what they would be
    with the calls of [load] left out. *)
Theorem load_leaves_watch_alone hook found w acts :
  (let w' := (load_hook hook found w).2 in
   w' = set_finds (S (finds w)) w
   ∧ isWatching w' = isWatching w
   ∧ activeWatch w' = activeWatch w
   ∧ subjects w' = subjects w
   ∧ watchers w' = watchers w
   ∧ pending w' = pending w
   ∧ received w' = received w)
  ∧ (let sc := run acts fresh_scene in
     let sc' := run (without_loads acts) fresh_scene in
     held sc = held sc'
     ∧ state sc = set_finds (finds (state sc)) (state sc')
     ∧ isWatching (state sc) = isWatching (state sc')
     ∧ ∀ c, received_by c (state sc) = received_by c (state sc')).
Proof.
  split; [by split_and!|]. cbn zeta.
  destruct (run_without_loads acts fresh_scene fresh_scene 0 eq_refl eq_refl)
    as [Hh [n Hs]].
  assert (Hn : finds (state (run acts fresh_scene)) = n) by by rewrite Hs.
  rewrite Hn. split_and!; try done.
  - by rewrite Hs.
  - intros c. by rewrite Hs.
Qed.

(** ** One subscriber's view *)

Lemma sent_to_app c l l' : sent_to c (l ++ l') = sent_to c l ++ sent_to c l'.
Proof. unfold sent_to. apply omap_app. Qed.

Lemma sent_to_forwarded c (l : list inner) :
  sent_to c (flat_map forwarded l)
  = flat_map forwards (List.filter (λ i, bool_decide (destination i = c)) l).
Proof.
  induction l as [|i l IH]; [done|]. cbn [flat_map List.filter].
  rewrite sent_to_app, IH. unfold forwards, forwarded, sent_to.
  destruct (decide (destination i = c)) as [E|E].
  - rewrite (bool_decide_eq_true_2 _ E). cbn [flat_map]. f_equal.
    destruct (outcome i); simpl; try done;
      by (destruct (decide _); [|done]).
  - rewrite (bool_decide_eq_false_2 _ E).
    destruct (outcome i); simpl; try done;
      by (destruct (decide _); [|done]).
Qed.

Lemma filter_filter_comm {A} (f g : A → bool) l :
  List.filter f (List.filter g l) = List.filter g (List.filter f l).
Proof.
  induction l as [|x l IH]; [done|]. simpl.
  destruct (f x) eqn:Ef, (g x) eqn:Eg; simpl; rewrite ?Ef, ?Eg, ?IH; done.
Qed.

Lemma view_of_settle c w : view_of c (settle w) = vsettle (view_of c w).
Proof.
  unfold view_of, vsettle, settle, received_by, pending_for. simpl.
  rewrite sent_to_app, sent_to_forwarded. f_equal; [f_equal|].
  - f_equal. f_equal. apply filter_filter_comm.
  - apply filter_filter_comm.
Qed.

Lemma view_of_tick c w : view_of c (tick w) = vtick (view_of c w).
Proof. unfold tick. by rewrite view_of_settle. Qed.

(** *** Well-formedness is kept *)

Lemma wf_fresh : wf new_PluginHooker.
Proof. by repeat split. Qed.

Lemma wf_settle w : wf w → wf (settle w).
Proof.
  intros (Hp & Hr & Hs & Hw). unfold wf, settle. simpl. split_and!; try done.
  - apply Forall_forall. intros i [Hi _]%list_elem_of_In%filter_In.
    rewrite Forall_forall in Hp. by apply Hp, list_elem_of_In.
  - apply Forall_app. split; [done|]. apply Forall_forall.
    intros [c e] Hin%list_elem_of_In.
    apply in_flat_map in Hin as (i & [Hi _]%filter_In & Hf).
    rewrite Forall_forall in Hp. specialize (Hp i).
    rewrite list_elem_of_In in Hp. specialize (Hp Hi).
    unfold forwarded in Hf. destruct (outcome i); simpl in Hf;
      try destruct Hf as [[= <- _]|[]]; try done.
Qed.

Lemma wf_tick w : wf w → wf (tick w).
Proof. intros H. apply wf_settle. exact H. Qed.

Lemma wf_packageSubject w : wf w → wf (packageSubject w).2.
Proof.
  intros (Hp & Hr & Hs & Hw). unfold packageSubject.
  destruct (activeWatch w); [done|]. unfold wf. simpl.
  split_and!; try done.
  - apply Forall_app. split; [done|]. by repeat constructor.
  - rewrite length_app. simpl. apply Forall_app. split.
    + eapply Forall_impl; [exact Hw|]. simpl. intros; lia.
    + repeat constructor. simpl. lia.
Qed.

Lemma wf_stopWatching w : wf w → wf (stopWatching w).
Proof.
  intros (Hp & Hr & Hs & Hw). unfold stopWatching.
  destruct (activeWatch w) as [aw|]; [|done]. unfold wf. simpl.
  split_and!; try done. apply Forall_alter; [done|]. by intros reg _ H.
Qed.

Lemma task_for_destination packages now ob i :
  task_for packages now ob = Some i → destination i = subscriber ob.
Proof. unfold task_for. destruct (through ob); [|done]. by intros [= <-]. Qed.

Lemma metadata_for_destination packages ob ce :
  metadata_for packages ob = Some ce → ce.1 = subscriber ob.
Proof. unfold metadata_for. destruct (through ob); [done|]. by intros [= <-]. Qed.

Lemma wf_next s packages w : wf w → wf (next s packages w).
Proof.
  intros (Hp & Hr & Hs & Hw). unfold next.
  destruct (subjects w !! s) as [bs|] eqn:E; [|done].
  rewrite fold_push. unfold wf. simpl.
  assert (Hobs : Forall (λ ob, subscriber ob < next_subscriber w)
                   (observers bs)).
  { rewrite Forall_forall in Hs. apply (Hs bs).
    by eapply list_elem_of_lookup_2. }
  split_and!.
  - apply Forall_app. split; [done|]. apply Forall_forall. intros i Hi.
    apply list_elem_of_omap in Hi as (ob & Hob & Hi).
    rewrite (task_for_destination _ _ _ _ Hi).
    rewrite Forall_forall in Hobs. by apply Hobs.
  - apply Forall_app. split; [done|]. apply Forall_forall. intros ce Hi.
    apply list_elem_of_omap in Hi as (ob & Hob & Hi).
    rewrite (metadata_for_destination _ _ _ Hi).
    rewrite Forall_forall in Hobs. by apply Hobs.
  - by apply Forall_insert.
  - by rewrite length_insert.
Qed.

Lemma wf_notify r packages w : wf w → wf (notify r packages w).
Proof.
  intros H. unfold notify. destruct (watchers w !! r) as [reg|]; [|done].
  destruct (cancelled reg); [done|]. by apply wf_settle, wf_next.
Qed.

Lemma wf_subscribe o w : wf w → wf (subscribe o w).2.
Proof.
  intros (Hp & Hr & Hs & Hw).
  destruct (subjects w !! source o) as [bs|] eqn:E.
  2:{ unfold subscribe. by rewrite E. }
  rewrite (subscribe_closed _ _ _ E). cbn [snd]. apply wf_settle.
  unfold wf. simpl. split_and!.
  - apply Forall_app. split.
    + eapply Forall_impl; [exact Hp|]. simpl. intros; lia.
    + unfold task_for. simpl. destruct (piped o); repeat constructor.
  - apply Forall_app. split.
    + eapply Forall_impl; [exact Hr|]. simpl. intros; lia.
    + unfold metadata_for. simpl. destruct (piped o); repeat constructor.
  - apply Forall_insert.
    + eapply Forall_impl; [exact Hs|]. simpl. intros bs' Hbs'.
      eapply Forall_impl; [exact Hbs'|]. simpl. intros; lia.
    + simpl. apply Forall_app. split; [|by repeat constructor].
      rewrite Forall_forall in Hs.
      eapply Forall_impl;
        [apply (Hs bs); by eapply list_elem_of_lookup_2|].
      simpl. intros; lia.
  - by rewrite length_insert.
Qed.

Lemma wf_step sc a : wf (state sc) → wf (state (step sc a)).
Proof.
  intros H. destruct a as [hook| |n| |hook found|r packages|]; simpl.
  - unfold watch. pose proof (wf_packageSubject _ H) as H'.
    by destruct (packageSubject (state sc)).
  - unfold packagesStream. pose proof (wf_packageSubject _ H) as H'.
    by destruct (packageSubject (state sc)).
  - destruct (held sc !! n) as [o|]; [|done]. by apply wf_subscribe.
  - by apply wf_stopWatching.
  - done.
  - by apply wf_notify.
  - by apply wf_tick.
Qed.

Lemma wf_run acts sc : wf (state sc) → wf (state (run acts sc)).
Proof.
  revert sc. induction acts as [|a acts IH]; intros sc H; [done|].
  simpl. by apply IH, wf_step.
Qed.

(** *** The view across the operations *)

Lemma received_by_fresh c w : wf w → next_subscriber w ≤ c → received_by c w = [].
Proof.
  intros (_ & Hr & _) Hc. unfold received_by, sent_to.
  induction Hr as [|ce l Hce _ IH]; [done|]. simpl.
  destruct (decide (ce.1 = c)); [lia|done].
Qed.

Lemma pending_for_fresh c w : wf w → next_subscriber w ≤ c → pending_for c w = [].
Proof.
  intros (Hp & _) Hc. unfold pending_for.
  induction Hp as [|i l Hi _ IH]; [done|]. simpl.
  rewrite bool_decide_eq_false_2 by lia. done.
Qed.

Lemma observers_fresh c w s bs :
  wf w → next_subscriber w ≤ c → subjects w !! s = Some bs →
  List.filter (λ ob, bool_decide (subscriber ob = c)) (observers bs) = [].
Proof.
  intros (_ & _ & Hs & _) Hc E. rewrite Forall_forall in Hs.
  specialize (Hs bs (list_elem_of_lookup_2 _ _ _ E)).
  induction Hs as [|ob l Hob _ IH]; [done|]. simpl.
  rewrite bool_decide_eq_false_2 by lia. done.
Qed.

Lemma sent_to_metadata_for c packages obs :
  sent_to c (omap (metadata_for packages) obs)
  = omap (λ ob, snd <$> metadata_for packages ob)
      (List.filter (λ ob, bool_decide (subscriber ob = c)) obs).
Proof.
  unfold sent_to, metadata_for.
  induction obs as [|ob obs IH]; [done|]. cbn [omap list_omap List.filter].
  destruct (decide (subscriber ob = c)) as [E|E].
  - rewrite (bool_decide_eq_true_2 _ E). cbn [omap list_omap].
    destruct (through ob); cbn; [done|].
    rewrite decide_True by done. by f_equal.
  - rewrite (bool_decide_eq_false_2 _ E).
    destruct (through ob); cbn; [done|].
    by rewrite decide_False by done.
Qed.

Lemma pending_task_for c packages now obs :
  List.filter (λ i, bool_decide (destination i = c))
    (omap (task_for packages now) obs)
  = omap (task_for packages now)
      (List.filter (λ ob, bool_decide (subscriber ob = c)) obs).
Proof.
  unfold task_for.
  induction obs as [|ob obs IH]; [done|]. cbn [omap list_omap List.filter].
  destruct (decide (subscriber ob = c)) as [E|E].
  - rewrite (bool_decide_eq_true_2 _ E). cbn [omap list_omap].
    destruct (through ob); cbn; [|done].
    rewrite (bool_decide_eq_true_2 _ E). by f_equal.
  - rewrite (bool_decide_eq_false_2 _ E).
    destruct (through ob); cbn; [|done].
    by rewrite (bool_decide_eq_false_2 _ E).
Qed.

(** A package list reaching the subject a subscriber is attached to. *)
Lemma view_of_notify c hook r reg packages w :
  watchers w !! r = Some reg → cancelled reg = false →
  attached c (feeds reg) hook w →
  view_of c (notify r packages w) = vnext c hook packages (view_of c w)
  ∧ attached c (feeds reg) hook (notify r packages w)
  ∧ watchers (notify r packages w) = watchers w.
Proof.
  intros Hr Hc (bs & Hbs & Hobs). unfold notify. rewrite Hr, Hc.
  rewrite view_of_settle, (next_closed _ _ _ _ Hbs). split_and!.
  - unfold vnext, view_of at 2. apply (f_equal vsettle).
    unfold view_of, received_by, pending_for. simpl.
    rewrite sent_to_app, sent_to_metadata_for, Hobs. cbn [omap list_omap].
    rewrite List.filter_app, pending_task_for, Hobs.
    unfold metadata_for, task_for. simpl. by rewrite app_nil_r.
  - exists {| _value := packages; observers := observers bs |}. simpl.
    split; [|done]. apply list_lookup_insert_eq. by eapply lookup_lt_Some.
  - done.
Qed.

Lemma view_of_subscribe hook o w bs :
  wf w → subjects w !! source o = Some bs →
  piped o = MergeMapImplementations hook →
  let c := next_subscriber w in
  (subscribe o w).1 = c
  ∧ view_of c (subscribe o w).2 = vnext c hook (_value bs) (clock w, [], [])
  ∧ attached c (source o) hook (subscribe o w).2
  ∧ watchers (subscribe o w).2 = watchers w.
Proof.
  intros Hwf Hbs Hop c. rewrite (subscribe_closed _ _ _ Hbs). cbn [fst snd].
  rewrite view_of_settle. split_and!; [done| | |done].
  - unfold vnext. apply (f_equal vsettle).
    unfold view_of, received_by, pending_for. simpl.
    rewrite sent_to_app, List.filter_app.
    fold (received_by c w). fold (pending_for c w).
    rewrite received_by_fresh, pending_for_fresh by (done || lia).
    unfold metadata_for, task_for. simpl. rewrite Hop. simpl.
    by rewrite bool_decide_eq_true_2.
  - eexists. simpl. split.
    + apply list_lookup_insert_eq. by eapply lookup_lt_Some.
    + simpl. rewrite List.filter_app.
      rewrite (observers_fresh c w (source o) bs) by (done || lia).
      simpl. rewrite bool_decide_eq_true_2 by done. by rewrite Hop.
Qed.

Lemma attached_tick c s hook w : attached c s hook w → attached c s hook (tick w).
Proof. done. Qed.

Lemma view_of_ticks c n w :
  view_of c (ticks n w) = Nat.iter n vtick (view_of c w).
Proof.
  induction n as [|n IH]; [done|]. unfold ticks in *. simpl.
  by rewrite view_of_tick, IH.
Qed.


(** *** The life of one subscriber's promises *)

Lemma forwards_task c t hook packages :
  forwards {| destination := c; started := t;
              outcome := getImplementations packages hook |}
  = resolution hook packages.
Proof.
  unfold forwards, forwarded, resolution. simpl.
  by destruct (getImplementations packages hook).
Qed.

Lemma vsettle_settled_forwarded v : settled_forwarded (vsettle v).
Proof.
  destruct v as [[now got] waits]. simpl. apply Forall_forall.
  intros i [_ Hi]%list_elem_of_In%filter_In. by apply negb_true_iff.
Qed.

Lemma vplay_settled_forwarded c hook v e : settled_forwarded (vplay c hook v e).
Proof.
  destruct v as [[now got] waits], e; apply vsettle_settled_forwarded.
Qed.

(** Settling loses nothing and invents nothing. *)
Lemma flat_map_filter_split {A B} (f : A → list B) (p : A → bool) l :
  flat_map f (List.filter p l) ++ flat_map f (List.filter (λ x, negb (p x)) l)
  ≡ₚ flat_map f l.
Proof.
  induction l as [|x l IH]; [done|]. simpl. destruct (p x); simpl.
  - by rewrite <- app_assoc, IH.
  - rewrite Permutation_app_swap_app. by rewrite IH.
Qed.

Lemma vsettle_accounted v : accounted (vsettle v) ≡ₚ accounted v.
Proof.
  destruct v as [[now got] waits]. simpl.
  by rewrite <- app_assoc, flat_map_filter_split.
Qed.

Lemma vplay_accounted c hook v e :
  accounted (vplay c hook v e)
  ≡ₚ accounted v ++ flat_map (resolution hook) (updates_of [e]).
Proof.
  destruct v as [[now got] waits], e as [packages|]; cbn [vplay].
  - unfold vnext. rewrite vsettle_accounted. simpl.
    rewrite flat_map_app. simpl. rewrite forwards_task.
    by rewrite !app_nil_r, app_assoc.
  - unfold vtick. rewrite vsettle_accounted. simpl. by rewrite app_nil_r.
Qed.

Lemma updates_of_cons e evs :
  updates_of (e :: evs) = updates_of [e] ++ updates_of evs.
Proof. unfold updates_of. by destruct e. Qed.

(** Every package list handed to the subscriber is resolved once, and its
    resolution is either received or still waited for. *)
Lemma play_accounted c hook evs v :
  accounted (fold_left (vplay c hook) evs v)
  ≡ₚ accounted v ++ flat_map (resolution hook) (updates_of evs).
Proof.
  revert v. induction evs as [|e evs IH]; intros v.
  - simpl. by rewrite app_nil_r.
  - cbn [fold_left]. rewrite IH, vplay_accounted, (updates_of_cons e evs).
    by rewrite flat_map_app, app_assoc.
Qed.

(** *** When no resolution overtakes an earlier one *)

Lemma filter_none {A} (p : A → bool) l :
  Forall (λ x, p x = false) l →
  List.filter p l = [] ∧ List.filter (λ x, negb (p x)) l = l.
Proof.
  induction 1 as [|x l Hx _ [IH1 IH2]]; [done|]. simpl.
  rewrite Hx. simpl. by rewrite IH1, IH2.
Qed.

Lemma StronglySorted_filter {A} (R : A → A → Prop) (p : A → bool) l :
  StronglySorted R l → StronglySorted R (List.filter p l).
Proof.
  induction 1 as [|x l _ IH Hx]; simpl; [constructor|].
  destruct (p x); [|done]. constructor; [done|].
  apply Forall_forall. intros y [Hy _]%list_elem_of_In%filter_In.
  rewrite Forall_forall in Hx. by apply Hx, list_elem_of_In.
Qed.

Lemma Forall_filter_keep {A} (P : A → Prop) (p : A → bool) l :
  Forall P l → Forall P (List.filter p l).
Proof.
  intros H. apply Forall_forall. intros y [Hy _]%list_elem_of_In%filter_In.
  rewrite Forall_forall in H. by apply H, list_elem_of_In.
Qed.

(** The settled promises of an ordered list are its head. *)
Lemma sorted_settled_first now waits :
  Forall (λ i, settles (outcome i) = true) waits →
  StronglySorted (λ i j, deadline i ≤ deadline j) waits →
  List.filter (due now) waits ++ List.filter (λ i, negb (due now i)) waits
  = waits.
Proof.
  intros Hs Hsorted. induction Hsorted as [|x l _ IH Hx]; [done|].
  apply Forall_cons in Hs as [Hsx Hsl]. specialize (IH Hsl). simpl.
  destruct (due now x) eqn:Ex; simpl; [by rewrite IH|].
  assert (Hl : Forall (λ i, due now i = false) l).
  { apply Forall_forall. intros y Hy.
    rewrite Forall_forall in Hx, Hsl. specialize (Hx y Hy).
    specialize (Hsl y Hy). unfold due, deadline in *.
    destruct (outcome x), (outcome y); simpl in *; try done;
      apply Nat.leb_gt; apply Nat.leb_gt in Ex; lia. }
  destruct (filter_none _ _ Hl) as [-> ->]. done.
Qed.

Lemma in_order_settles most now got waits :
  in_order most (now, got, waits) →
  Forall (λ i, settles (outcome i) = true) waits.
Proof.
  intros [H _]. eapply Forall_impl; [exact H|]. simpl.
  by intros i (d & exts & -> & _).
Qed.

Lemma vsettle_in_order most v :
  in_order most v →
  in_order most (vsettle v) ∧ accounted (vsettle v) = accounted v.
Proof.
  destruct v as [[now got] waits]. intros Hio.
  pose proof (in_order_settles _ _ _ _ Hio) as Hs. destruct Hio as [Hf Hsorted].
  simpl. split_and!.
  - by apply Forall_filter_keep.
  - by apply StronglySorted_filter.
  - rewrite <- app_assoc, <- flat_map_app. by rewrite sorted_settled_first.
Qed.

Lemma vtick_in_order most v :
  in_order most v →
  in_order most (vtick v) ∧ accounted (vtick v) = accounted v.
Proof.
  destruct v as [[now got] waits]. intros [Hf Hsorted]. unfold vtick.
  apply (vsettle_in_order most (S now, got, waits)). split; [|done].
  eapply Forall_impl; [exact Hf|]. simpl.
  intros i (d & exts & ? & ? & ?). exists d, exts. split_and!; try done. lia.
Qed.

Lemma vnext_in_order c hook packages most d exts v :
  in_order most v → getImplementations packages hook = Fulfils d exts →
  most ≤ d →
  in_order d (vnext c hook packages v)
  ∧ accounted (vnext c hook packages v) = accounted v ++ [Extensions exts].
Proof.
  destruct v as [[now got] waits]. intros [Hf Hsorted] E Hd. unfold vnext.
  set (i := {| destination := c; started := now;
               outcome := getImplementations packages hook |}).
  destruct (vsettle_in_order d (now, got, waits ++ [i])) as [Hio Hacc].
  - split.
    + apply Forall_app. split.
      * eapply Forall_impl; [exact Hf|]. simpl.
        intros j (dj & ej & ? & ? & ?). exists dj, ej.
        split_and!; try done. lia.
      * repeat constructor. exists d, exts. simpl. by split_and!.
    + apply StronglySorted_app. split_and!.
      * intros x1 x2 Hx1 ->%list_elem_of_singleton.
        rewrite Forall_forall in Hf.
        destruct (Hf x1 Hx1) as (d1 & e1 & E1 & ? & ?).
        unfold deadline. rewrite E1. subst i. simpl. rewrite E. simpl. lia.
      * done.
      * repeat constructor.
  - split; [done|]. rewrite Hacc. simpl. rewrite flat_map_app. simpl.
    subst i. rewrite forwards_task. unfold resolution. rewrite E.
    by rewrite !app_nil_r, app_assoc.
Qed.

(** With no overtaking, what is received and what is waited for are, in this
    order, the resolutions of the package lists in the order of arrival. *)
Lemma play_in_order c hook evs most v :
  in_order most v → no_overtaking hook most (updates_of evs) = true →
  accounted (fold_left (vplay c hook) evs v)
  = accounted v ++ flat_map (resolution hook) (updates_of evs).
Proof.
  revert most v. induction evs as [|e evs IH]; intros most v Hio Hno.
  - simpl. by rewrite app_nil_r.
  - cbn [fold_left]. destruct e as [packages|].
    + rewrite updates_of_cons in Hno. cbn [updates_of omap list_omap app] in Hno.
      cbn [no_overtaking] in Hno.
      destruct (getImplementations packages hook) as [d exts| |] eqn:E;
        try discriminate Hno.
      apply andb_prop in Hno as [Hd%Nat.leb_le Hno].
      destruct (vnext_in_order c hook packages most d exts v Hio E Hd)
        as [Hio' Hacc].
      cbn [vplay]. rewrite (IH d _ Hio' Hno), Hacc.
      rewrite (updates_of_cons (Update packages) evs). simpl.
      unfold resolution at 2. rewrite E. simpl. by rewrite <- app_assoc.
    + destruct (vtick_in_order most v Hio) as [Hio' Hacc].
      cbn [vplay]. rewrite (IH most _ Hio'), Hacc; [done|].
      by rewrite updates_of_cons in Hno.
Qed.

(** A promise alone in a view is forwarded when its time has come, not
    before and not twice. *)
Lemma vnext_alone c hook packages d exts t got n :
  getImplementations packages hook = Fulfils d exts →
  Nat.iter n vtick (vnext c hook packages (t, got, []))
  = (t + n,
     if d <=? n then got ++ [Extensions exts] else got,
     if d <=? n then []
     else [{| destination := c; started := t;
              outcome := getImplementations packages hook |}]).
Proof.
  intros E. induction n as [|n IH].
  - simpl. unfold due, forwards, forwarded. simpl. rewrite E.
    rewrite Nat.add_0_r. destruct d as [|d].
    + rewrite Nat.add_0_r, Nat.leb_refl. simpl. by rewrite ?E.
    + replace (t + S d <=? t) with false
        by (symmetry; apply Nat.leb_gt; lia).
      simpl. by rewrite app_nil_r.
  - rewrite Nat.iter_succ, IH. unfold vtick.
    destruct (d <=? n) eqn:Hn.
    + apply Nat.leb_le in Hn.
      replace (d <=? S n) with true by (symmetry; apply Nat.leb_le; lia).
      simpl. rewrite app_nil_r. f_equal. f_equal. lia.
    + apply Nat.leb_gt in Hn. simpl. unfold due, forwards, forwarded. simpl.
      rewrite E. destruct (decide (d = S n)) as [->|Hne].
      * replace (t + S n <=? S (t + n)) with true
          by (symmetry; apply Nat.leb_le; lia).
        rewrite Nat.leb_refl. simpl. rewrite ?E. simpl.
        f_equal. f_equal. lia.
      * replace (t + d <=? S (t + n)) with false
          by (symmetry; apply Nat.leb_gt; lia).
        replace (d <=? S n) with false by (symmetry; apply Nat.leb_gt; lia).
        simpl. rewrite app_nil_r. f_equal. f_equal. lia.
Qed.

(** *** From the view back to the world *)

Lemma view_of_play c hook r reg evs w :
  watchers w !! r = Some reg → cancelled reg = false →
  attached c (feeds reg) hook w →
  view_of c (fold_left (play r) evs w)
  = fold_left (vplay c hook) evs (view_of c w).
Proof.
  intros Hr Hc. revert w Hr. induction evs as [|e evs IH]; intros w Hr Ha.
  - done.
  - cbn [fold_left]. destruct e as [packages|]; cbn [play vplay].
    + destruct (view_of_notify c hook r reg packages w Hr Hc Ha)
        as (Hv & Ha' & Hw).
      rewrite <- Hv. apply IH; [by rewrite Hw|done].
    + rewrite <- view_of_tick. apply IH; [done|by apply attached_tick].
Qed.

Lemma registered_subject w r reg :
  wf w → watchers w !! r = Some reg → is_Some (subjects w !! feeds reg).
Proof.
  intros (_ & _ & _ & Hw) Hr. apply lookup_lt_is_Some.
  rewrite Forall_forall in Hw. apply Hw. by eapply list_elem_of_lookup_2.
Qed.



(** *** What the other operations leave alone *)






(** ** A finder that reports nothing *)

Lemma settle_idle w : pending w = [] → settle w = w.
Proof.
  intros E. unfold settle. rewrite E. simpl. unfold set_received, set_pending.
  simpl. rewrite app_nil_r, <- E. apply world_eta.
Qed.

Lemma calm_fresh : calm new_PluginHooker.
Proof. by repeat split. Qed.

Lemma calm_packageSubject w : calm w → calm (packageSubject w).2.
Proof.
  intros (Hv & Hp & Hr & He). unfold packageSubject.
  destruct (activeWatch w); [done|]. unfold calm. simpl.
  split_and!; try done. apply Forall_app. split; [done|].
  by repeat constructor.
Qed.

Lemma calm_subscribe o w bs :
  calm w → subjects w !! source o = Some bs →
  calm (subscribe o w).2
  ∧ received (subscribe o w).2
    = received w ++ [(next_subscriber w, silence (piped o))].
Proof.
  intros (Hv & Hp & Hr & He) Hbs.
  assert (Eb : _value bs = []).
  { rewrite Forall_forall in Hv. apply Hv. by eapply list_elem_of_lookup_2. }
  rewrite (subscribe_closed _ _ _ Hbs). cbn [snd]. rewrite Eb, Hp.
  unfold metadata_for, task_for. simpl.
  assert (Hrec : received
            (settle
               (set_received
                  (received w ++ option_list
                     match piped o with
                     | MergeMapImplementations _ => None
                     | MapMetadata => Some (next_subscriber w, Metadata [])
                     end)
                  (set_pending
                     (option_list
                        match piped o with
                        | MergeMapImplementations hook =>
                            Some {| destination := next_subscriber w;
                                    started := clock w;
                                    outcome := getImplementations [] hook |}
                        | MapMetadata => None
                        end)
                     (set_next_subscriber (S (next_subscriber w))
                        (set_subjects
                           (<[source o := {| _value := [];
                                observers := observers bs
                                  ++ [{| subscriber := next_subscriber w;
                                         through := piped o |}] |}]>
                              (subjects w)) w)))))
          = received w ++ [(next_subscriber w, silence (piped o))]).
  { unfold settle. destruct (piped o); simpl.
    - unfold due. simpl. rewrite Nat.add_0_r, Nat.leb_refl. simpl.
      by rewrite app_nil_r.
    - by rewrite app_nil_r. }
  split; [|exact Hrec]. unfold calm. rewrite Hrec. split_and!.
  - simpl. by apply Forall_insert.
  - unfold settle. destruct (piped o); simpl; [|done].
    unfold due. simpl. by rewrite Nat.add_0_r, Nat.leb_refl.
  - rewrite fmap_app, Hr. simpl.
    change (0 :: seq 1 (next_subscriber w))
      with (seq 0 (S (next_subscriber w))).
    by rewrite seq_S.
  - apply Forall_app. split; [done|]. apply Forall_singleton. simpl.
    destruct (piped o); auto.
Qed.

Lemma calm_tick w : calm w → calm (tick w) ∧ received (tick w) = received w.
Proof.
  intros (Hv & Hp & Hr & He). unfold tick. rewrite settle_idle by done.
  by repeat split.
Qed.

Lemma calm_ticks n w :
  calm w → calm (ticks n w) ∧ received (ticks n w) = received w.
Proof.
  intros H. induction n as [|n [IH1 IH2]]; [done|]. unfold ticks in *.
  rewrite Nat.iter_succ. destruct (calm_tick _ IH1) as [? ->]. done.
Qed.

Lemma calm_step sc a :
  is_notify a = false → calm (state sc) → calm (state (step sc a)).
Proof.
  intros Ha H. destruct a as [hook| |n| |hook found|r packages|];
    try discriminate Ha; simpl.
  - unfold watch. pose proof (calm_packageSubject _ H) as H'.
    by destruct (packageSubject (state sc)).
  - unfold packagesStream. pose proof (calm_packageSubject _ H) as H'.
    by destruct (packageSubject (state sc)).
  - destruct (held sc !! n) as [o|]; [|done]. simpl.
    destruct (subjects (state sc) !! source o) as [bs|] eqn:E.
    + by destruct (calm_subscribe o _ bs H E).
    + unfold subscribe. by rewrite E.
  - unfold stopWatching. by destruct (activeWatch (state sc)).
  - done.
  - by apply calm_tick.
Qed.

Lemma calm_run acts sc :
  existsb is_notify acts = false → calm (state sc) →
  calm (state (run acts sc)).
Proof.
  revert sc. induction acts as [|a acts IH]; intros sc Hn H; [done|].
  cbn [existsb] in Hn. apply orb_false_iff in Hn as [Ha Hn].
  apply IH; [done|]. by apply calm_step.
Qed.

Lemma sent_to_none c l : Forall (λ ce, ce.1 ≠ c) l → sent_to c l = [].
Proof.
  induction 1 as [|ce l Hce _ IH]; [done|]. unfold sent_to in *. simpl.
  by rewrite decide_False.
Qed.

(** In a log with one entry for each of the subscribers [a], [a+1], ...,
    each has received exactly one emission. *)
Lemma sent_to_seq c a n (l : list (nat * emission)) :
  l.*1 = seq a n → a ≤ c < a + n →
  ∃ e, sent_to c l = [e] ∧ (c, e) ∈ l.
Proof.
  revert a n. induction l as [|[c0 e0] l IH]; intros a n Hl Hc.
  - destruct n; [lia|done].
  - destruct n as [|n]; [done|]. rewrite fmap_cons in Hl. cbn [seq fst] in Hl.
    injection Hl as -> Hl.
    destruct (decide (a = c)) as [->|Hne].
    + exists e0. split; [|by left]. unfold sent_to. simpl.
      rewrite decide_True by done. f_equal. apply sent_to_none.
      apply Forall_forall. intros [c1 e1] Hin. simpl.
      assert (H1 : c1 ∈ l.*1) by (apply list_elem_of_fmap; by exists (c1, e1)).
      rewrite Hl in H1. apply list_elem_of_In, in_seq in H1. lia.
    + destruct (IH (S a) n Hl) as (e & He & Hin); [lia|].
      exists e. split; [|by right]. unfold sent_to in *. simpl.
      by rewrite decide_False.
Qed.

Lemma calm_received c w :
  calm w → c < next_subscriber w →
  received_by c w = [Extensions []] ∨ received_by c w = [Metadata []].
Proof.
  intros (_ & _ & Hr & He) Hc.
  destruct (sent_to_seq c 0 _ _ Hr) as (e & E & Hin); [lia|].
  unfold received_by. rewrite E. rewrite Forall_forall in He.
  destruct (He _ Hin) as [Hx|Hx]; simpl in Hx; subst e; auto.
Qed.

(** C9, as the code has it.  While the finder reports nothing, every
    subscriber of [watch(hook)] or [packagesStream] has received exactly one
    emission, the empty list the subject was created with; a new subscriber
    receives that one emission on subscribing and nothing more, however long
    it waits. *)
Theorem silent_finder_replays_empty acts :
  existsb is_notify acts = false →
  let w := state (run acts fresh_scene) in
  (∀ c, c < next_subscriber w →
        received_by c w = [Extensions []] ∨ received_by c w = [Metadata []])
  ∧ (∀ o n, is_Some (subjects w !! source o) →
            received_by (subscribe o w).1 (ticks n (subscribe o w).2)
            = [silence (piped o)]).
Proof.
  intros Hn w. assert (Hcalm : calm w) by (apply calm_run; [done|apply calm_fresh]).
  split.
  - intros c Hc. by apply calm_received.
  - intros o n [bs Hbs].
    destruct (calm_subscribe o w bs Hcalm Hbs) as [Hc1 Hrec].
    destruct (calm_ticks n _ Hc1) as [_ Ht].
    unfold received_by. rewrite Ht, Hrec, sent_to_app.
    rewrite (subscribe_closed _ _ _ Hbs). cbn [fst].
    rewrite sent_to_none.
    + unfold sent_to. simpl. by rewrite decide_True.
    + destruct Hcalm as (_ & _ & Hr & _). apply Forall_forall.
      intros [c1 e1] Hin. simpl.
      assert (H1 : c1 ∈ (received w).*1)
        by (apply list_elem_of_fmap; by exists (c1, e1)).
      rewrite Hr in H1. apply list_elem_of_In, in_seq in H1. lia.
Qed.

Lemma silent_finder_replays_empty_witness :
  (∀ c, c < next_subscriber (state (run Script.silent fresh_scene)) →
        received_by c (state (run Script.silent fresh_scene))
        = [Extensions []]
        ∨ received_by c (state (run Script.silent fresh_scene))
          = [Metadata []])
  ∧ (∀ o n,
       is_Some (subjects (state (run Script.silent fresh_scene)) !! source o) →
       received_by (subscribe o (state (run Script.silent fresh_scene))).1
         (ticks n (subscribe o (state (run Script.silent fresh_scene))).2)
       = [silence (piped o)]).
Proof.
  apply (silent_finder_replays_empty Script.silent). reflexivity.
Defined.

(** C9 as the claim words it fails: with a finder that never calls the
    listener, a subscriber of [packagesStream] and a subscriber of
    [watch("render")] are each sent the empty list. *)
Lemma silent_finder_still_emits :
  ¬ (∀ acts, existsb is_notify acts = false →
             received (state (run acts fresh_scene)) = []).
Proof.
  intros H.
  specialize (H [ReadPackagesStream; Subscribe 0; CallWatch "render";
                 Subscribe 1] eq_refl).
  vm_compute in H. discriminate H.
Qed.

(** ** Replay and updates *)

(** The end-to-end scenario of the specification: the finder reports package
    A, a consumer subscribes to [watch("render")], the finder adds package
    B. *)
Example end_to_end :
  received_by 0
    (state (run [CallWatch "render"; Notify 0 [Sample.pkgA]; Subscribe 0;
                 Notify 0 [Sample.pkgA; Sample.pkgB]] fresh_scene))
  = [Extensions
       [loaded_extension (Sample.descriptor "render" "x") "pkgA" (VStr "R1")];
     Extensions
       [loaded_extension (Sample.descriptor "render" "x") "pkgA" (VStr "R1");
        errored_extension (Sample.descriptor "render" "y") "pkgB"
          (VStr "boom")]].
Proof. vm_compute. reflexivity. Qed.


(** What an observer, through [mergeMap] for [hook], of the subject that
    registration [r] feeds has received and waits for. *)
Lemma subscriber_accounts_for_updates acts r reg hook evs :
  let w0 := state (run acts fresh_scene) in
  watchers w0 !! r = Some reg → cancelled reg = false →
  let o := {| source := feeds reg; piped := MergeMapImplementations hook |} in
  let c := (subscribe o w0).1 in
  let w := fold_left (play r) evs (subscribe o w0).2 in
  ∃ latest,
    _value <$> subjects w0 !! feeds reg = Some latest
    ∧ received_by c w ++ flat_map forwards (pending_for c w)
      ≡ₚ flat_map (resolution hook) (latest :: updates_of evs)
    ∧ Forall (λ i, due (clock w) i = false) (pending_for c w)
    ∧ (no_overtaking hook 0 (latest :: updates_of evs) = true →
       received_by c w ++ flat_map forwards (pending_for c w)
       = flat_map (resolution hook) (latest :: updates_of evs)).
Proof.
  intros w0 Hr Hc o c w.
  assert (Hwf : wf w0) by apply wf_run, wf_fresh.
  destruct (registered_subject w0 r reg Hwf Hr) as [bs Hbs].
  exists (_value bs). split; [by rewrite Hbs|].
  destruct (view_of_subscribe hook o w0 bs Hwf Hbs eq_refl)
    as (Hc' & Hview & Hatt & Hwat).
  fold c in Hc'. rewrite <- Hc' in Hview, Hatt.
  assert (Hw : view_of c w
               = fold_left (vplay c hook) (Update (_value bs) :: evs)
                   (clock w0, [], [])).
  { subst w. rewrite (view_of_play c hook r reg); try done.
    - by rewrite Hview.
    - by rewrite Hwat. }
  change (received_by c w ++ flat_map forwards (pending_for c w))
    with (accounted (view_of c w)).
  change (Forall (λ i, due (clock w) i = false) (pending_for c w))
    with (settled_forwarded (view_of c w)).
  change (_value bs :: updates_of evs)
    with (updates_of (Update (_value bs) :: evs)).
  rewrite Hw. split_and!.
  - by rewrite play_accounted.
  - destruct evs as [|e evs _] using rev_ind.
    + apply vplay_settled_forwarded.
    + rewrite app_comm_cons, fold_left_app. apply vplay_settled_forwarded.
  - intros Hno. rewrite (play_in_order c hook _ 0); try done.
    split; [constructor|constructor].
Qed.

(** C5 as the claim words it fails: the emissions are not always in the order
    in which the package lists arrived.  The finder reports a package that
    takes five units of time to load and replaces it at once by one that
    loads immediately; the subscriber is sent the resolution of the second
    list first, and the resolution of the first, stale list last. *)
Lemma updates_overtake :
  ¬ (∀ hook evs,
       let w := fold_left (play 0) evs
                  (state (run [CallWatch hook; Subscribe 0] fresh_scene)) in
       received_by 0 w
       `prefix_of` flat_map (resolution hook) ([] :: updates_of evs)).
Proof.
  intros H. specialize (H "render" Script.overtaking). cbn zeta in H.
  destruct H as [k Hk].
  assert (Hrec :
    received_by 0
      (fold_left (play 0) Script.overtaking
         (state (run [CallWatch "render"; Subscribe 0] fresh_scene)))
    = [Extensions [];
       Extensions [loaded_extension (Sample.descriptor "render" "f") "fast"
                     (VStr "F")];
       Extensions [loaded_extension (Sample.descriptor "render" "s") "slow"
                     (VStr "S")]])
    by (vm_compute; reflexivity).
  assert (Hexp :
    flat_map (resolution "render") ([] :: updates_of Script.overtaking)
    = [Extensions [];
       Extensions [loaded_extension (Sample.descriptor "render" "s") "slow"
                     (VStr "S")];
       Extensions [loaded_extension (Sample.descriptor "render" "f") "fast"
                     (VStr "F")]])
    by (vm_compute; reflexivity).
  rewrite Hrec, Hexp in Hk.
  apply (f_equal (λ l, match l with
                       | _ :: Extensions [ext] :: _ => get ext "packageId"
                       | _ => VUndefined
                       end)) in Hk.
  vm_compute in Hk. discriminate Hk.
Qed.

(** * Further properties of the code *)

(** ** The resolver, composed *)

Lemma matching_app packages packages' hook :
  matching (packages ++ packages') hook
  = matching packages hook ++ matching packages' hook.
Proof. unfold matching. apply flat_map_app. Qed.

(** X1.  Resolving a hook against two package lists put end to end is
    resolving it against the first, then against the second, and appending
    the results: nothing is merged or removed across packages, and the times
    add up. *)
Theorem resolve_app packages packages' hook :
  getImplementations (packages ++ packages') hook
  = (exts ← getImplementations packages hook;
     exts' ← getImplementations packages' hook;
     mret (exts ++ exts')).
Proof.
  rewrite !bind_await, !getImplementations_in_turn, matching_app, map_app.
  rewrite in_turn_app. apply await_ext. intros exts. reflexivity.
Qed.

(** X2.  The loads are awaited one after the other.  A resolution settles
    exactly when the loads of all the matching descriptors settle, and then
    takes the sum of their times; the loaders are not asked about any other
    descriptor, so those cost no time and cannot block. *)
Theorem resolution_time packages hook :
  settles (getImplementations packages hook)
  = forallb load_settles (matching packages hook)
  ∧ delay_of (getImplementations packages hook)
    = (if forallb load_settles (matching packages hook)
       then sum_list (map load_delay (matching packages hook))
       else 0).
Proof.
  destruct (forallb load_settles (matching packages hook)) eqn:E.
  - destruct (resolved_entries _ _ E) as (l & -> & _). done.
  - by rewrite (resolution_pending _ _ E).
Qed.

Lemma same_for_matching hook packages packages' :
  Forall2 (same_for hook) packages packages' →
  map (uncurry classify) (matching packages hook)
  = map (uncurry classify) (matching packages' hook).
Proof.
  induction 1 as [|pkg pkg' packages packages' (Hid & Hext & Hload) _ IH];
    [done|].
  change (pkg :: packages) with ([pkg] ++ packages).
  change (pkg' :: packages') with ([pkg'] ++ packages').
  rewrite !matching_app, !map_app, IH. f_equal. unfold matching. simpl.
  rewrite !app_nil_r, !map_map, <- Hext. apply map_ext_in.
  intros x [_ Hx]%filter_In. simpl. unfold classify.
  by rewrite <- Hid, (Hload x Hx).
Qed.

(** X3.  A resolution depends on a package only through its id, its
    descriptors and what its loader does with the descriptors of the
    requested hook: the metadata and the loads of other descriptors play no
    part. *)
Theorem resolver_ignores_the_rest hook packages packages' :
  Forall2 (same_for hook) packages packages' →
  getImplementations packages hook = getImplementations packages' hook.
Proof.
  intros H. rewrite !getImplementations_in_turn.
  by rewrite (same_for_matching _ _ _ H).
Qed.

Lemma resolver_ignores_the_rest_witness :
  getImplementations [Sample.pkgA; Sample.pkgB] "render"
  = getImplementations [Sample.pkgA; Cases.pkgB_picky] "render".
Proof.
  apply (resolver_ignores_the_rest "render" [Sample.pkgA; Sample.pkgB]
           [Sample.pkgA; Cases.pkgB_picky]).
  repeat constructor. intros extInfo Hx. simpl. by rewrite Hx.
Defined.

(** ** The type predicates on the entries the resolver builds *)

Lemma predicates_of_spread (extInfo : obj) (packageId : string)
    (v err : value) :
  isLoaded (loaded_extension extInfo packageId v) = strict_ne v VUndefined
  ∧ isErrored (loaded_extension extInfo packageId v) = isErrored extInfo
  ∧ isErrored (errored_extension extInfo packageId err)
    = strict_ne err VUndefined
  ∧ isLoaded (errored_extension extInfo packageId err) = isLoaded extInfo.
Proof.
  unfold isLoaded, isErrored, loaded_extension, errored_extension.
  split_and!.
  - by rewrite get_insert_eq.
  - by rewrite !get_insert_ne.
  - by rewrite get_insert_ne, get_insert_eq.
  - by rewrite !get_insert_ne.
Qed.

(** X4.  On a loaded entry [isLoaded] tells whether the loaded value is
    defined and [isErrored] whether the descriptor has a defined field
    [error]; on an errored entry [isErrored] tells whether the error is
    defined (it is not for a load rejecting with [undefined]) and [isLoaded]
    whether the descriptor has a defined field [value]. *)
Theorem predicates_on_entries (extInfo : obj) (packageId : string)
    (v err : value) :
  (isLoaded (loaded_extension extInfo packageId v) = true ↔ v ≠ VUndefined)
  ∧ isErrored (loaded_extension extInfo packageId v) = isErrored extInfo
  ∧ (isErrored (errored_extension extInfo packageId err) = true
     ↔ err ≠ VUndefined)
  ∧ isLoaded (errored_extension extInfo packageId err) = isLoaded extInfo.
Proof.
  destruct (predicates_of_spread extInfo packageId v err)
    as (-> & -> & -> & ->).
  split_and!; try done; apply strict_ne_true.
Qed.

Lemma settled_of_fulfils packages hook d l :
  getImplementations packages hook = Fulfils d l →
  forallb load_settles (matching packages hook) = true.
Proof.
  intros E. destruct (forallb load_settles (matching packages hook)) eqn:Es;
    [done|].
  by rewrite (resolution_pending _ _ Es) in E.
Qed.

Lemma Forall2_and_Forall_bool {A B} (p : A → bool) (R : A → B → Prop) l k :
  forallb p l = true → Forall2 R l k →
  Forall2 (λ a b, p a = true ∧ R a b) l k.
Proof.
  intros Hp HR. apply Forall2_and_Forall_l; [|done].
  apply Forall_forall. intros a Ha%list_elem_of_In.
  rewrite forallb_forall in Hp. by apply Hp.
Qed.

(** X5.  When no matching descriptor has a field of its own called [value]
    or [error] and no load settles with [undefined], the two predicates split
    the result of a resolution: of every entry exactly one holds, [isLoaded]
    if the load fulfilled and [isErrored] if it rejected. *)
Theorem predicates_split_result packages hook d l :
  getImplementations packages hook = Fulfils d l →
  forallb plain (matching packages hook) = true →
  Forall2
    (λ m ext,
       isLoaded ext = negb (isErrored ext)
       ∧ isLoaded ext = negb (rejected (load m.1 m.2)))
    (matching packages hook) l.
Proof.
  intros E Hplain. pose proof (settled_of_fulfils _ _ _ _ E) as Hs.
  destruct (resolved_entries _ _ Hs) as (l' & E' & Hl).
  rewrite E in E'. injection E' as _ <-.
  eapply Forall2_impl; [exact (Forall2_and_Forall_bool _ _ _ _ Hplain Hl)|].
  intros [pkg x] ext [Hp Hent]. unfold plain, entry_of in *.
  cbn [fst snd] in *.
  apply andb_prop in Hp as [[Hv He]%andb_prop Hout].
  assert (Hlx : isLoaded x = false).
  { unfold isLoaded, strict_ne. by rewrite Hv. }
  assert (Hex : isErrored x = false).
  { unfold isErrored, strict_ne. by rewrite He. }
  destruct (load pkg x) as [d' v|d' err|]; [| |done]; subst ext.
  - destruct (predicates_of_spread x (id pkg) v v) as (-> & -> & _ & _).
    by rewrite Hex, Hout.
  - destruct (predicates_of_spread x (id pkg) err err) as (_ & _ & -> & ->).
    by rewrite Hlx, Hout.
Qed.

Lemma predicates_split_result_witness :
  Forall2
    (λ m ext,
       isLoaded ext = negb (isErrored ext)
       ∧ isLoaded ext = negb (rejected (load m.1 m.2)))
    (matching [Sample.pkgA; Sample.pkgB] "render")
    [loaded_extension (Sample.descriptor "render" "x") "pkgA" (VStr "R1");
     errored_extension (Sample.descriptor "render" "y") "pkgB" (VStr "boom")].
Proof.
  apply (predicates_split_result [Sample.pkgA; Sample.pkgB] "render" 0);
    vm_compute; reflexivity.
Defined.

(** ** The metadata stream *)

Lemma vsettle_idle now got : vsettle (now, got, []) = (now, got, []).
Proof. simpl. by rewrite app_nil_r. Qed.

Lemma metadata_subscribe o w bs :
  wf w → subjects w !! source o = Some bs → piped o = MapMetadata →
  let c := next_subscriber w in
  (subscribe o w).1 = c
  ∧ view_of c (subscribe o w).2 = (clock w, [metadata_of (_value bs)], [])
  ∧ observing c (source o) (subscribe o w).2
  ∧ watchers (subscribe o w).2 = watchers w.
Proof.
  intros Hwf Hbs Hop c. rewrite (subscribe_closed _ _ _ Hbs). cbn [fst snd].
  rewrite view_of_settle. split_and!; [done| | |done].
  - rewrite <- (vsettle_idle (clock w) [metadata_of (_value bs)]).
    apply (f_equal vsettle).
    unfold view_of, received_by, pending_for. simpl.
    rewrite sent_to_app, List.filter_app.
    fold (received_by c w). fold (pending_for c w).
    rewrite received_by_fresh, pending_for_fresh by (done || lia).
    unfold metadata_for, task_for. simpl. rewrite Hop. unfold sent_to. simpl.
    by rewrite decide_True.
  - eexists. simpl. split.
    + apply list_lookup_insert_eq. by eapply lookup_lt_Some.
    + simpl. rewrite List.filter_app.
      rewrite (observers_fresh c w (source o) bs) by (done || lia).
      simpl. rewrite bool_decide_eq_true_2 by done. by rewrite Hop.
Qed.

Lemma metadata_notify c r reg packages w got :
  watchers w !! r = Some reg → cancelled reg = false →
  observing c (feeds reg) w → view_of c w = (clock w, got, []) →
  view_of c (notify r packages w)
  = (clock w, got ++ [metadata_of packages], [])
  ∧ observing c (feeds reg) (notify r packages w)
  ∧ watchers (notify r packages w) = watchers w
  ∧ clock (notify r packages w) = clock w.
Proof.
  intros Hr Hc (bs & Hbs & Hobs) Hv. unfold notify. rewrite Hr, Hc.
  rewrite view_of_settle, (next_closed _ _ _ _ Hbs). split_and!.
  - rewrite <- (vsettle_idle (clock w) (got ++ [metadata_of packages])).
    apply (f_equal vsettle). injection Hv as Hgot Hwaits.
    unfold view_of, received_by, pending_for in *. simpl.
    rewrite sent_to_app, sent_to_metadata_for, Hobs. cbn [omap list_omap].
    rewrite List.filter_app, pending_task_for, Hobs, Hgot, Hwaits.
    unfold metadata_for, task_for. by simpl.
  - exists {| _value := packages; observers := observers bs |}. simpl.
    split; [|done]. apply list_lookup_insert_eq. by eapply lookup_lt_Some.
  - done.
  - done.
Qed.

Lemma metadata_tick c w got :
  view_of c w = (clock w, got, []) →
  view_of c (tick w) = (clock (tick w), got, []).
Proof.
  intros Hv. rewrite view_of_tick, Hv. unfold vtick.
  by rewrite vsettle_idle.
Qed.

Lemma metadata_play c r reg evs w got :
  watchers w !! r = Some reg → cancelled reg = false →
  observing c (feeds reg) w → view_of c w = (clock w, got, []) →
  let w' := fold_left (play r) evs w in
  view_of c w' = (clock w', got ++ map metadata_of (updates_of evs), []).
Proof.
  intros Hr Hc. revert w got Hr.
  induction evs as [|e evs IH]; intros w got Hr Ho Hv.
  - simpl. by rewrite app_nil_r.
  - cbn [fold_left]. rewrite updates_of_cons, map_app, app_assoc.
    destruct e as [packages|]; cbn [play].
    + destruct (metadata_notify c r reg packages w got Hr Hc Ho Hv)
        as (Hv' & Ho' & Hw' & Hk').
      apply IH; [by rewrite Hw'|done|by rewrite Hk'].
    + simpl. rewrite app_nil_r. apply IH; try done. by apply metadata_tick.
Qed.

(** What an observer, through [map] to the metadata, of the subject that
    registration [r] feeds receives. *)
Lemma metadata_subscriber_in_order acts r reg evs :
  let w0 := state (run acts fresh_scene) in
  watchers w0 !! r = Some reg → cancelled reg = false →
  let o := {| source := feeds reg; piped := MapMetadata |} in
  let c := (subscribe o w0).1 in
  let w := fold_left (play r) evs (subscribe o w0).2 in
  ∃ latest,
    _value <$> subjects w0 !! feeds reg = Some latest
    ∧ received_by c w = map metadata_of (latest :: updates_of evs)
    ∧ pending_for c w = [].
Proof.
  intros w0 Hr Hc o c w.
  assert (Hwf : wf w0) by apply wf_run, wf_fresh.
  destruct (registered_subject w0 r reg Hwf Hr) as [bs Hbs].
  exists (_value bs). split; [by rewrite Hbs|].
  destruct (metadata_subscribe o w0 bs Hwf Hbs eq_refl)
    as (Hc' & Hview & Hobs & Hwat).
  fold c in Hc'. rewrite <- Hc' in Hview, Hobs.
  assert (Hk : clock (subscribe o w0).2 = clock w0).
  { by rewrite (subscribe_closed o w0 bs Hbs). }
  rewrite <- Hk in Hview.
  pose proof (metadata_play c r reg evs (subscribe o w0).2 _
                ltac:(by rewrite Hwat) Hc Hobs Hview) as Hw.
  cbn zeta in Hw. fold w in Hw. by injection Hw as -> ->.
Qed.

(** ** Stopping the watch *)

Lemma tick_stopWatching w : tick (stopWatching w) = stopWatching (tick w).
Proof.
  destruct w as [aw ss ws f k p ns rc]. unfold tick, stopWatching, settle.
  simpl. by destruct aw.
Qed.

Lemma ticks_stopWatching n w :
  ticks n (stopWatching w) = stopWatching (ticks n w).
Proof.
  induction n as [|n IH]; [done|]. unfold ticks in *.
  by rewrite !Nat.iter_succ, IH, tick_stopWatching.
Qed.

Lemma stopWatching_streams w :
  subjects (stopWatching w) = subjects w
  ∧ pending (stopWatching w) = pending w
  ∧ received (stopWatching w) = received w
  ∧ clock (stopWatching w) = clock w
  ∧ next_subscriber (stopWatching w) = next_subscriber w.
Proof. unfold stopWatching. by destruct (activeWatch w). Qed.

(** X9.  Whether the instance is watching changes only on request: a read of
    the shared stream by [watch] or [packagesStream] makes it watch,
    [stopWatching] makes it stop, and subscribing, the reports of the finder,
    the passing of time and [load] leave it as it is. *)
Theorem watching_changes_on_request sc a :
  isWatching (state (step sc a))
  = if is_demand a then true
    else if is_stop a then false
    else isWatching (state sc).
Proof.
  unfold isWatching.
  destruct a as [hook| |n| |hook found|r packages|]; simpl.
  - unfold watch, packageSubject.
    by destruct (activeWatch (state sc)) eqn:E; simpl; [rewrite E|].
  - unfold packagesStream, packageSubject.
    by destruct (activeWatch (state sc)) eqn:E; simpl; [rewrite E|].
  - destruct (held sc !! n) as [o|]; [|done]. simpl.
    by destruct (subscribe_session o (state sc)) as [-> _].
  - unfold stopWatching.
    by destruct (activeWatch (state sc)) eqn:E; simpl; [|rewrite E].
  - done.
  - by destruct (notify_session r packages (state sc)) as [-> _].
  - done.
Qed.

(** *** Subscribers left behind *)

Lemma filter_length_0 {A} (p : A → bool) l :
  length (List.filter p l) = 0 → Forall (λ x, p x = false) l.
Proof.
  induction l as [|x l IH]; [done|]. simpl. destruct (p x) eqn:E; [done|].
  intros H. constructor; auto.
Qed.

Lemma sent_to_option_other c me e :
  me ≠ c → sent_to c (option_list ((me,.) <$> e)) = [].
Proof.
  intros Hne. destruct e as [e|]; [|done]. unfold sent_to. simpl.
  by rewrite decide_False.
Qed.

(** Another subscriber joining changes nothing for [c] but to let settled
    promises through. *)
Lemma view_of_subscribe_other c o w :
  c ≠ next_subscriber w →
  view_of c (subscribe o w).2 = vsettle (view_of c w)
  ∨ view_of c (subscribe o w).2 = view_of c w.
Proof.
  intros Hne. destruct (subjects w !! source o) as [bs|] eqn:E.
  2:{ right. unfold subscribe. by rewrite E. }
  left. rewrite (subscribe_closed _ _ _ E). cbn [snd].
  rewrite view_of_settle. apply (f_equal vsettle).
  unfold view_of, received_by, pending_for. simpl.
  rewrite sent_to_app, List.filter_app.
  unfold metadata_for, task_for. simpl.
  destruct (piped o); simpl; unfold sent_to; simpl;
    rewrite ?decide_False, ?bool_decide_eq_false_2, ?app_nil_r by done; done.
Qed.

(** A report to a subject that [c] does not observe. *)
Lemma view_of_notify_other c r packages w :
  (∀ reg bs, watchers w !! r = Some reg → cancelled reg = false →
             subjects w !! feeds reg = Some bs →
             List.filter (λ ob, bool_decide (subscriber ob = c))
               (observers bs) = []) →
  view_of c (notify r packages w) = vsettle (view_of c w)
  ∨ view_of c (notify r packages w) = view_of c w.
Proof.
  intros H. unfold notify. destruct (watchers w !! r) as [reg|] eqn:Hr;
    [|by right].
  destruct (cancelled reg) eqn:Hc; [by right|]. left.
  rewrite view_of_settle. apply (f_equal vsettle).
  destruct (subjects w !! feeds reg) as [bs|] eqn:Hbs.
  2:{ unfold next. by rewrite Hbs. }
  rewrite (next_closed _ _ _ _ Hbs).
  unfold view_of, received_by, pending_for. simpl.
  rewrite sent_to_app, sent_to_metadata_for, List.filter_app.
  rewrite pending_task_for, (H reg bs eq_refl Hc Hbs). simpl.
  by rewrite !app_nil_r.
Qed.

Lemma observers_later c b (obs : list observer) :
  c < b → Forall (λ ob, b ≤ subscriber ob) obs →
  List.filter (λ ob, bool_decide (subscriber ob = c)) obs = [].
Proof.
  intros Hc H. induction H as [|ob obs Hob _ IH]; [done|]. simpl.
  by rewrite bool_decide_eq_false_2 by lia.
Qed.

Lemma orphaning_packageSubject n b w :
  orphaning n b w → orphaning n b (packageSubject w).2.
Proof.
  intros (Hw & Hs & Hn & Hb). unfold packageSubject.
  destruct (activeWatch w); [done|]. unfold orphaning. simpl.
  split_and!; try done.
  - apply Forall_app. split; [done|]. apply Forall_singleton. simpl. lia.
  - intros s bs [Hl|[_ Hr]]%lookup_app_Some Hns; [by eapply Hs|].
    destruct (s - length (subjects w)) as [|k]; [|done].
    injection Hr as <-. constructor.
  - rewrite length_app. lia.
Qed.

Lemma orphaning_step n b sc a :
  orphaning n b (state sc) → orphaning n b (state (step sc a)).
Proof.
  intros H. pose proof H as (Hw & Hs & Hn & Hb).
  destruct a as [hook| |i| |hook found|r packages|]; simpl.
  - unfold watch. pose proof (orphaning_packageSubject _ _ _ H) as H'.
    by destruct (packageSubject (state sc)).
  - unfold packagesStream. pose proof (orphaning_packageSubject _ _ _ H) as H'.
    by destruct (packageSubject (state sc)).
  - destruct (held sc !! i) as [o|]; [|done]. simpl.
    destruct (subjects (state sc) !! source o) as [bs0|] eqn:E.
    2:{ unfold subscribe. by rewrite E. }
    destruct (subscribe_session o (state sc)) as [_ Hwat].
    unfold orphaning. rewrite Hwat. rewrite (subscribe_closed _ _ _ E).
    simpl. split_and!; try done.
    + intros s bs Hl Hns. apply list_lookup_insert_Some in Hl
        as [(<- & <- & _)|(Hne & Hl)]; [|by eapply Hs].
      simpl. apply Forall_app. split; [by eapply Hs|].
      by apply Forall_singleton.
    + by rewrite length_insert.
    + lia.
  - unfold stopWatching. destruct (activeWatch (state sc)); [|done].
    unfold orphaning. simpl. split_and!; try done.
    apply Forall_alter; [done|]. by intros reg _ _.
  - done.
  - destruct (notify_session r packages (state sc)) as [_ Hwat].
    unfold orphaning. rewrite Hwat. unfold notify.
    destruct (watchers (state sc) !! r) as [reg|]; [|done].
    destruct (cancelled reg); [done|].
    destruct (subjects (state sc) !! feeds reg) as [bs0|] eqn:E.
    2:{ unfold next. by rewrite E. }
    rewrite (next_closed _ _ _ _ E). simpl. split_and!; try done.
    + intros s bs Hl Hns. apply list_lookup_insert_Some in Hl
        as [(<- & <- & _)|(Hne & Hl)]; [|by eapply Hs].
      simpl. by eapply Hs.
    + by rewrite length_insert.
  - done.
Qed.

Lemma orphaning_step_accounted n b c sc a :
  orphaning n b (state sc) → c < b →
  accounted (view_of c (state (step sc a)))
  ≡ₚ accounted (view_of c (state sc)).
Proof.
  intros (Hw & Hs & Hn & Hb) Hc.
  destruct a as [hook| |i| |hook found|r packages|]; cbn [step].
  - unfold watch, packageSubject. by destruct (activeWatch (state sc)).
  - unfold packagesStream, packageSubject.
    by destruct (activeWatch (state sc)).
  - destruct (held sc !! i) as [o|]; [|done]. cbn [state].
    destruct (view_of_subscribe_other c o (state sc)) as [-> | ->];
      [lia|apply vsettle_accounted|done].
  - cbn [state]. unfold view_of, received_by, pending_for.
    by destruct (stopWatching_streams (state sc)) as (_ & -> & -> & -> & _).
  - done.
  - cbn [state].
    destruct (view_of_notify_other c r packages (state sc)) as [-> | ->];
      [|apply vsettle_accounted|done].
    intros reg bs Hr Hcan Hbs. apply (observers_later c b); [done|].
    apply (Hs (feeds reg)); [done|]. rewrite Forall_forall in Hw.
    apply Hw; [by eapply list_elem_of_lookup_2|done].
  - cbn [state]. rewrite view_of_tick.
    destruct (view_of c (state sc)) as [[now got] waits].
    unfold vtick. by rewrite vsettle_accounted.
Qed.

Lemma orphaning_run_accounted n b c acts sc :
  orphaning n b (state sc) → c < b →
  accounted (view_of c (state (run acts sc)))
  ≡ₚ accounted (view_of c (state sc)).
Proof.
  revert sc. induction acts as [|a acts IH]; intros sc H Hc; [done|].
  cbn [run fold_left]. fold (run acts (step sc a)).
  rewrite (IH (step sc a)); [|by apply orphaning_step|done].
  by apply (orphaning_step_accounted n b).
Qed.

Lemma orphaning_stopWatching w :
  session_inv w →
  orphaning (length (subjects w)) (next_subscriber w) (stopWatching w).
Proof.
  intros Hinv%stopWatching_session_inv.
  destruct (stopWatching_streams w) as (Hs & _ & _ & _ & Hn).
  unfold orphaning. rewrite Hs, Hn. split_and!; try done.
  - unfold session_inv in Hinv.
    assert (E : activeWatch (stopWatching w) = None).
    { unfold stopWatching. by destruct (activeWatch w) eqn:E; [|rewrite E]. }
    rewrite E in Hinv. apply filter_length_0 in Hinv.
    eapply Forall_impl; [exact Hinv|]. simpl. intros reg Hreg Hcan.
    by rewrite Hcan in Hreg.
  - intros s bs Hl Hns. apply lookup_lt_Some in Hl. lia.
Qed.

(** X8.  [stopWatching] leaves the subscribers of the old session behind for
    good.  Whatever is done afterwards, also when watching is resumed and the
    finder reports again, a subscriber from before is handed no further
    package list: all it will ever receive are the resolutions that were in
    flight when [stopWatching] was called. *)
Theorem stop_orphans_subscribers acts later c :
  let sc := run acts fresh_scene in
  c < next_subscriber (state sc) →
  let sc' := run (CallStopWatching :: later) sc in
  received_by c (state sc') ++ flat_map forwards (pending_for c (state sc'))
  ≡ₚ received_by c (state sc)
     ++ flat_map forwards (pending_for c (state sc)).
Proof.
  intros sc Hc sc'.
  change (accounted (view_of c (state sc'))
          ≡ₚ accounted (view_of c (state sc))).
  subst sc'. cbn [run fold_left]. fold (run later (step sc CallStopWatching)).
  rewrite (orphaning_run_accounted (length (subjects (state sc)))
             (next_subscriber (state sc)) c later); [| |done].
  - cbn [step state]. unfold view_of, received_by, pending_for.
    by destruct (stopWatching_streams (state sc)) as (_ & -> & -> & -> & _).
  - cbn [step state]. apply orphaning_stopWatching, run_session_inv.
Qed.

(** A consumer of [watch("render")] whose slow resolution is in flight when
    watching stops receives that resolution and, although watching is
    resumed and the finder reports again, nothing else. *)
Lemma stop_orphans_subscribers_witness :
  let sc := run Cases.before_stop fresh_scene in
  let sc' := run (CallStopWatching :: Cases.after_stop) sc in
  received_by 0 (state sc') ++ flat_map forwards (pending_for 0 (state sc'))
  ≡ₚ received_by 0 (state sc)
     ++ flat_map forwards (pending_for 0 (state sc)).
Proof.
  apply (stop_orphans_subscribers Cases.before_stop Cases.after_stop 0).
  vm_compute. lia.
Defined.

(** *** Watching again *)

Lemma stopWatching_idle w : activeWatch (stopWatching w) = None.
Proof. unfold stopWatching. destruct (activeWatch w) eqn:E; [done|exact E]. Qed.

Lemma view_received c w now got waits :
  view_of c w = (now, got, waits) → received_by c w = got.
Proof. by intros [= _ -> _]. Qed.

(** X10.  Watching again after [stopWatching] starts from nothing: the new
    session has a new subject, so a subscriber of a new [watch(hook)] is sent
    the empty list, whatever the finder had reported before, and nothing
    else until the finder reports again.  An observable obtained before
    [stopWatching] is still built on the old subject and replays the last
    package list of the old session to a new subscriber. *)
Theorem resumed_watch_starts_empty acts hook :
  let w := stopWatching (state (run acts fresh_scene)) in
  (∀ n, received_by (watch_and_subscribe hook w).1
          (ticks n (watch_and_subscribe hook w).2)
        = [Extensions []])
  ∧ (∀ o bs d exts,
       subjects (state (run acts fresh_scene)) !! source o = Some bs →
       piped o = MergeMapImplementations hook →
       getImplementations (_value bs) hook = Fulfils d exts →
       received_by (subscribe o w).1 (ticks d (subscribe o w).2)
       = [Extensions exts]).
Proof.
  intros w.
  assert (Hwf : wf w) by apply wf_stopWatching, wf_run, wf_fresh.
  split.
  - intros n. unfold watch_and_subscribe.
    assert (Hidle : activeWatch w = None) by apply stopWatching_idle.
    pose proof (wf_packageSubject w Hwf) as Hwf'.
    unfold watch. unfold packageSubject in *. rewrite Hidle in *.
    cbn [fst snd] in *.
    set (w' := set_activeWatch _ _) in *.
    set (o := {| source := length (subjects w); piped := _ |}).
    assert (Hbs : subjects w' !! source o = Some empty_subject).
    { subst w' o. simpl. by rewrite lookup_app_r, Nat.sub_diag. }
    destruct (view_of_subscribe hook o w' empty_subject Hwf' Hbs eq_refl)
      as (-> & Hview & _).
    eapply view_received. rewrite view_of_ticks, Hview.
    rewrite (vnext_alone _ hook [] 0 [] _ _ n eq_refl). done.
  - intros o bs d exts Hbs Hop E.
    assert (Hbs' : subjects w !! source o = Some bs).
    { subst w. by destruct (stopWatching_streams (state (run acts fresh_scene)))
        as (-> & _). }
    destruct (view_of_subscribe hook o w bs Hwf Hbs' Hop) as (-> & Hview & _).
    eapply view_received. rewrite view_of_ticks, Hview.
    rewrite (vnext_alone _ hook _ d exts _ _ d E). by rewrite Nat.leb_refl.
Qed.

(** After the finder reported package A and watching stopped: a new
    [watch("render")] starts with the empty list, the observable from before
    still replays package A's extension. *)
Lemma resumed_watch_starts_empty_witness :
  let w := stopWatching
             (state (run [CallWatch "render"; Notify 0 [Sample.pkgA]]
                       fresh_scene)) in
  let o := {| source := 0; piped := MergeMapImplementations "render" |} in
  received_by (watch_and_subscribe "render" w).1
    (ticks 0 (watch_and_subscribe "render" w).2)
  = [Extensions []]
  ∧ received_by (subscribe o w).1 (ticks 0 (subscribe o w).2)
    = [Extensions
         [loaded_extension (Sample.descriptor "render" "x") "pkgA"
            (VStr "R1")]].
Proof.
  intros w o.
  destruct (resumed_watch_starts_empty
              [CallWatch "render"; Notify 0 [Sample.pkgA]] "render")
    as [Hnew Hold].
  split.
  - exact (Hnew 0).
  - exact (Hold o {| _value := [Sample.pkgA]; observers := [] |} 0 _
             eq_refl eq_refl eq_refl).
Defined.

(** * The streams as the class hands them out *)

(** ** The session behind [watch] and [packagesStream] *)

Lemma watch_parts hook w :
  (watch hook w).1
  = {| source := (packageSubject w).1; piped := MergeMapImplementations hook |}
  ∧ (watch hook w).2 = (packageSubject w).2.
Proof. unfold watch. by destruct (packageSubject w). Qed.

Lemma packagesStream_parts w :
  (packagesStream w).1
  = {| source := (packageSubject w).1; piped := MapMetadata |}
  ∧ (packagesStream w).2 = (packageSubject w).2.
Proof. unfold packagesStream. by destruct (packageSubject w). Qed.

(** After a read of the shared stream there is a session, and the subject
    read is the subject of that session. *)
Lemma packageSubject_active w :
  ∃ aw, activeWatch (packageSubject w).2 = Some aw
        ∧ (packageSubject w).1 = subject aw.
Proof.
  unfold packageSubject. destruct (activeWatch w) as [aw|] eqn:E.
  - by exists aw.
  - by eexists.
Qed.


Lemma active_listener w aw :
  session_inv w → activeWatch w = Some aw →
  watchers w !! close aw = Some {| feeds := subject aw; cancelled := false |}.
Proof. unfold session_inv. intros H E. rewrite E in H. by destruct H. Qed.




Lemma state_after_watch acts hook :
  state (run (acts ++ [CallWatch hook]) fresh_scene)
  = (watch hook (state (run acts fresh_scene))).2.
Proof.
  rewrite run_snoc. cbn [step].
  by destruct (watch hook (state (run acts fresh_scene))).
Qed.

Lemma state_after_packagesStream acts :
  state (run (acts ++ [ReadPackagesStream]) fresh_scene)
  = (packagesStream (state (run acts fresh_scene))).2.
Proof.
  rewrite run_snoc. cbn [step].
  by destruct (packagesStream (state (run acts fresh_scene))).
Qed.

(** ** Promises in the order in which they settle *)

Lemma due_mono now now' i : now ≤ now' → due now i = true → due now' i = true.
Proof.
  unfold due. intros Hle. destruct (outcome i); try done;
    intros H%Nat.leb_le; apply Nat.leb_le; lia.
Qed.

Lemma due_deadline now i : due now i = true → deadline i ≤ now.
Proof.
  unfold due, deadline. destruct (outcome i); try done;
    by intros H%Nat.leb_le.
Qed.

Lemma newly_due now now' i :
  due now i = false → due now' i = true → now < deadline i.
Proof.
  unfold due, deadline. destruct (outcome i); try done;
    intros H%Nat.leb_gt _; simpl; lia.
Qed.

Lemma filter_split_perm {A} (p : A → bool) (l : list A) :
  List.filter p l ++ List.filter (λ x, negb (p x)) l ≡ₚ l.
Proof.
  induction l as [|x l IH]; [done|]. simpl. destruct (p x); simpl.
  - by rewrite IH.
  - by rewrite <- Permutation_middle, IH.
Qed.

Lemma sorted_of_constant {A} (f : A → nat) (k : nat) (l : list A) :
  Forall (λ x, f x = k) l → StronglySorted (λ i j, f i ≤ f j) l.
Proof.
  induction 1 as [|x l Hx Hl IH]; constructor; [done|].
  eapply Forall_impl; [exact Hl|]. simpl. intros; lia.
Qed.

(** Settling at time [now'] appends the promises that settle then to those
    settled before. *)
Lemma settle_tracks started now now' got settled waits :
  now ≤ now' →
  got = flat_map forwards settled → settled ++ waits ≡ₚ started →
  Forall (λ i, due now i = true) settled →
  StronglySorted (λ i j, deadline i ≤ deadline j) settled →
  Forall (λ i, due now' i = true → now' ≤ deadline i) waits →
  tracks started (vsettle (now', got, waits))
    (settled ++ List.filter (due now') waits).
Proof.
  intros Hle -> Hperm Hdue Hsorted Hnew. cbn [tracks vsettle]. split_and!.
  - by rewrite flat_map_app.
  - by rewrite <- app_assoc, filter_split_perm.
  - apply Forall_app. split.
    + eapply Forall_impl; [exact Hdue|]. intros i. by apply due_mono.
    + apply Forall_forall. by intros i [_ Hi]%list_elem_of_In%filter_In.
  - apply StronglySorted_app. split_and!; [|done|].
    + intros x1 x2 H1 [H2 Hd]%list_elem_of_In%filter_In.
      rewrite Forall_forall in Hdue, Hnew.
      pose proof (due_deadline _ _ (Hdue x1 H1)).
      pose proof (Hnew x2 (proj2 (list_elem_of_In _ _) H2) Hd). lia.
    + apply (sorted_of_constant deadline now'). apply Forall_forall.
      intros x [Hx Hd]%list_elem_of_In%filter_In.
      rewrite Forall_forall in Hnew.
      pose proof (Hnew x (proj2 (list_elem_of_In _ _) Hx) Hd).
      pose proof (due_deadline _ _ Hd). lia.
  - apply Forall_forall. intros i [_ Hi]%list_elem_of_In%filter_In.
    by apply negb_true_iff.
Qed.

Lemma tracks_vtick started v settled :
  tracks started v settled → ∃ settled', tracks started (vtick v) settled'.
Proof.
  destruct v as [[now got] waits]. intros (Hg & Hp & Hd & Hs & Hw).
  eexists. unfold vtick. apply (settle_tracks started now (S now)); try done.
  - lia.
  - eapply Forall_impl; [exact Hw|]. simpl. intros i Hi Hi'.
    pose proof (newly_due _ _ _ Hi Hi'). lia.
Qed.

Lemma tracks_vnext c hook packages started now got waits settled :
  tracks started (now, got, waits) settled →
  ∃ settled',
    tracks (started ++ [{| destination := c; started := now;
                           outcome := getImplementations packages hook |}])
      (vnext c hook packages (now, got, waits)) settled'.
Proof.
  intros (Hg & Hp & Hd & Hs & Hw). eexists. unfold vnext.
  apply (settle_tracks _ now now); try done.
  - by rewrite app_assoc, Hp.
  - apply Forall_app. split.
    + eapply Forall_impl; [exact Hw|]. simpl. intros i Hi Hi'. congruence.
    + apply Forall_singleton. intros _. unfold deadline. simpl. lia.
Qed.

Lemma vplay_clock c hook v e :
  (vplay c hook v e).1.1
  = match e with Update _ => v.1.1 | Elapse => S v.1.1 end.
Proof. by destruct v as [[now got] waits], e. Qed.

(** The results a subscriber has received are those of the promises that
    have settled, in the order in which they settled. *)
Lemma tracks_play c hook evs started v settled :
  tracks started v settled →
  ∃ settled',
    tracks (started ++ arrivals c hook v.1.1 evs)
      (fold_left (vplay c hook) evs v) settled'.
Proof.
  revert started v settled.
  induction evs as [|e evs IH]; intros started v settled H.
  - exists settled. cbn [arrivals fold_left]. by rewrite app_nil_r.
  - cbn [fold_left]. destruct e as [packages|]; cbn [arrivals].
    + destruct v as [[now got] waits].
      destruct (tracks_vnext c hook packages _ _ _ _ _ H) as [s1 H1].
      destruct (IH _ _ _ H1) as [s2 H2]. exists s2.
      change (vnext c hook packages (now, got, waits))
        with (vplay c hook (now, got, waits) (Update packages)) in H2.
      rewrite vplay_clock in H2. cbn [fst] in *.
      by rewrite <- app_assoc in H2.
    + destruct (tracks_vtick _ _ _ H) as [s1 H1].
      destruct (IH _ _ _ H1) as [s2 H2]. exists s2.
      change (vtick v) with (vplay c hook v Elapse) in H2.
      by rewrite vplay_clock in H2.
Qed.

(** The view of a new observer of the subject that registration [r] feeds,
    after the reports [evs]. *)
Lemma subscriber_view acts r reg hook evs :
  let w0 := state (run acts fresh_scene) in
  watchers w0 !! r = Some reg → cancelled reg = false →
  let o := {| source := feeds reg; piped := MergeMapImplementations hook |} in
  let c := (subscribe o w0).1 in
  let w := fold_left (play r) evs (subscribe o w0).2 in
  ∃ latest,
    _value <$> subjects w0 !! feeds reg = Some latest
    ∧ view_of c w
      = fold_left (vplay c hook) (Update latest :: evs) (clock w0, [], []).
Proof.
  intros w0 Hr Hc o c w.
  assert (Hwf : wf w0) by apply wf_run, wf_fresh.
  destruct (registered_subject w0 r reg Hwf Hr) as [bs Hbs].
  exists (_value bs). split; [by rewrite Hbs|].
  destruct (view_of_subscribe hook o w0 bs Hwf Hbs eq_refl)
    as (Hc' & Hview & Hatt & Hwat).
  fold c in Hc'. rewrite <- Hc' in Hview, Hatt.
  subst w. rewrite (view_of_play c hook r reg); try done.
  - by rewrite Hview.
  - by rewrite Hwat.
Qed.

Lemma packageSubject_clock w : clock (packageSubject w).2 = clock w.
Proof. unfold packageSubject. by destruct (activeWatch w). Qed.

(** The session after [watch(hook)] on a reachable instance, and its
    listener. *)
Lemma watch_session acts hook :
  let w0 := state (run acts fresh_scene) in
  ∃ aw,
    activeWatch (watch hook w0).2 = Some aw
    ∧ (watch hook w0).1
      = {| source := subject aw; piped := MergeMapImplementations hook |}
    ∧ watchers (watch hook w0).2 !! close aw
      = Some {| feeds := subject aw; cancelled := false |}
    ∧ clock (watch hook w0).2 = clock w0.
Proof.
  intros w0. destruct (watch_parts hook w0) as [Ho Hw].
  destruct (packageSubject_active w0) as (aw & Haw & Hsub).
  exists aw. rewrite Ho, Hw, Hsub. split_and!; try done.
  - apply active_listener; [|done]. rewrite <- Hw.
    subst w0. rewrite <- state_after_watch. apply run_session_inv.
  - apply packageSubject_clock.
Qed.

Lemma packagesStream_session acts :
  let w0 := state (run acts fresh_scene) in
  ∃ aw,
    activeWatch (packagesStream w0).2 = Some aw
    ∧ (packagesStream w0).1 = {| source := subject aw; piped := MapMetadata |}
    ∧ watchers (packagesStream w0).2 !! close aw
      = Some {| feeds := subject aw; cancelled := false |}.
Proof.
  intros w0. destruct (packagesStream_parts w0) as [Ho Hw].
  destruct (packageSubject_active w0) as (aw & Haw & Hsub).
  exists aw. rewrite Ho, Hw, Hsub. split_and!; try done.
  apply active_listener; [|done]. rewrite <- Hw.
  subst w0. rewrite <- state_after_packagesStream. apply run_session_inv.
Qed.

(** ** Updates through [watch] *)

(** C5, as the code has it, for reports that the finder makes each in a turn
    of its own.  A consumer that calls [watch(hook)] and subscribes is handed
    the list the subject of the session holds and every list the finder
    reports afterwards.  Each of them is resolved exactly once, none is
    dropped or merged with another: the resolutions received and those still
    waited for are, up to their order, the resolutions of these lists, and
    every resolution that has settled has been received.  They are received
    in the order in which they settle: what was received are the results of
    the promises that have settled, listed by the time at which each settled;
    this is the order of arrival when no resolution takes less time than the
    one before it. *)
Theorem watch_accounts_for_updates acts hook evs :
  let w0 := state (run acts fresh_scene) in
  ∃ aw latest,
    activeWatch (watch hook w0).2 = Some aw
    ∧ _value <$> subjects (watch hook w0).2 !! subject aw = Some latest
    ∧ let c := (watch_and_subscribe hook w0).1 in
      let w := fold_left (play (close aw)) evs
                 (watch_and_subscribe hook w0).2 in
      received_by c w ++ flat_map forwards (pending_for c w)
      ≡ₚ flat_map (resolution hook) (latest :: updates_of evs)
      ∧ Forall (λ i, due (clock w) i = false) (pending_for c w)
      ∧ (∃ settled,
           received_by c w = flat_map forwards settled
           ∧ settled ++ pending_for c w
             ≡ₚ arrivals c hook (clock w0) (Update latest :: evs)
           ∧ Forall (λ i, due (clock w) i = true) settled
           ∧ StronglySorted (λ i j, deadline i ≤ deadline j) settled)
      ∧ (no_overtaking hook 0 (latest :: updates_of evs) = true →
         received_by c w ++ flat_map forwards (pending_for c w)
         = flat_map (resolution hook) (latest :: updates_of evs)).
Proof.
  intros w0. destruct (watch_session acts hook) as (aw & Haw & _ & Hlis & Hk).
  fold w0 in Haw, Hlis, Hk.
  assert (Ho : (watch hook w0).1
               = {| source := subject aw;
                    piped := MergeMapImplementations hook |}).
  { revert Haw. unfold watch, packageSubject.
    destruct (activeWatch w0) as [aw0|] eqn:E; cbn; rewrite ?E;
      by intros [= <-]. }
  set (reg := {| feeds := subject aw; cancelled := false |}) in *.
  pose proof (subscriber_accounts_for_updates (acts ++ [CallWatch hook])
                (close aw) reg hook evs) as H1.
  pose proof (subscriber_view (acts ++ [CallWatch hook])
                (close aw) reg hook evs) as H2.
  cbn zeta in H1, H2. rewrite state_after_watch in H1, H2. fold w0 in H1, H2.
  destruct (H1 Hlis eq_refl) as (latest & Hl & Hperm & Hnd & Hord).
  destruct (H2 Hlis eq_refl) as (latest' & Hl' & Hview).
  rewrite Hl in Hl'. injection Hl' as <-. clear H1 H2.
  exists aw, latest. split; [done|]. split; [done|].
  unfold watch_and_subscribe. rewrite Ho. cbn zeta.
  change (feeds reg) with (subject aw) in *.
  split_and!; try done.
  set (c := (subscribe _ _).1) in *. set (w := fold_left _ _ _) in *.
  destruct (tracks_play c hook (Update latest :: evs) []
              (clock (watch hook w0).2, [], []) [])
    as [settled Ht].
  { by repeat split; try constructor. }
  rewrite <- Hview in Ht. cbn [fst app] in Ht. rewrite Hk in Ht.
  destruct Ht as (Hg & Hp & Hd & Hs & _). by exists settled.
Qed.

(** The finder reports the fast package, then adds the slow one. *)
Lemma watch_accounts_for_updates_witness :
  let w0 := state (run [CallWatch "lint"; CallStopWatching;
                        ReadPackagesStream] fresh_scene) in
  let c := (watch_and_subscribe "render" w0).1 in
  let w := fold_left (play 1) Script.orderly
             (watch_and_subscribe "render" w0).2 in
  received_by c w ++ flat_map forwards (pending_for c w)
  = flat_map (resolution "render") ([] :: updates_of Script.orderly).
Proof.
  intros w0 c w.
  destruct (watch_accounts_for_updates
              [CallWatch "lint"; CallStopWatching; ReadPackagesStream]
              "render" Script.orderly)
    as (aw & latest & Haw & Hlatest & _ & _ & _ & Hord).
  injection Haw as <-. injection Hlatest as <-. apply Hord. reflexivity.
Defined.

(** ** Replay through [watch] *)



(** ** The metadata stream, as [packagesStream] returns it *)

(** X6.  A consumer that reads [packagesStream] and subscribes is sent the
    metadata of the list the subject of the session holds and then the
    metadata of every list the finder reports, one emission for each, in
    the order of arrival and in the very step of the report: the metadata
    is not loaded, so nothing is waited for and nothing can overtake. *)
Theorem metadata_stream_in_order acts evs :
  let w0 := state (run acts fresh_scene) in
  ∃ aw latest,
    activeWatch (packagesStream w0).2 = Some aw
    ∧ _value <$> subjects (packagesStream w0).2 !! subject aw = Some latest
    ∧ let c := (stream_and_subscribe w0).1 in
      let w := fold_left (play (close aw)) evs (stream_and_subscribe w0).2 in
      received_by c w = map metadata_of (latest :: updates_of evs)
      ∧ pending_for c w = [].
Proof.
  intros w0.
  destruct (packagesStream_session acts) as (aw & Haw & _ & Hlis).
  fold w0 in Haw, Hlis.
  assert (Ho : (packagesStream w0).1
               = {| source := subject aw; piped := MapMetadata |}).
  { revert Haw. unfold packagesStream, packageSubject.
    destruct (activeWatch w0) as [aw0|] eqn:E; cbn; rewrite ?E;
      by intros [= <-]. }
  set (reg := {| feeds := subject aw; cancelled := false |}) in *.
  pose proof (metadata_subscriber_in_order (acts ++ [ReadPackagesStream])
                (close aw) reg evs) as H1.
  cbn zeta in H1. rewrite state_after_packagesStream in H1. fold w0 in H1.
  destruct (H1 Hlis eq_refl) as (latest & Hl & Hrec & Hpen).
  exists aw, latest. split; [done|]. split; [done|].
  unfold stream_and_subscribe. rewrite Ho. by cbn zeta.
Qed.

(** On an instance that was stopped and watches again. *)
Lemma metadata_stream_in_order_witness :
  let w0 := state (run [CallWatch "render"; Notify 0 [Sample.pkgA];
                        CallStopWatching; CallWatch "lint";
                        Notify 1 [Sample.pkgB]] fresh_scene) in
  let w := fold_left (play 1) Cases.reports (stream_and_subscribe w0).2 in
  received_by (stream_and_subscribe w0).1 w
  = map metadata_of
      [[Sample.pkgB]; [Sample.slow]; [Sample.fast; Sample.pkgA]; []].
Proof.
  intros w0 w.
  destruct (metadata_stream_in_order
              [CallWatch "render"; Notify 0 [Sample.pkgA]; CallStopWatching;
               CallWatch "lint"; Notify 1 [Sample.pkgB]]
              Cases.reports)
    as (aw & latest & Haw & Hlatest & Hrec & _).
  injection Haw as <-. injection Hlatest as <-. exact Hrec.
Defined.

(** ** What [stopWatching] does and does not do *)

Lemma stopWatching_cancels_all w :
  session_inv w → Forall (λ reg, cancelled reg = true) (watchers (stopWatching w)).
Proof.
  intros Hinv%stopWatching_session_inv. unfold session_inv in Hinv.
  rewrite stopWatching_idle in Hinv. apply filter_length_0 in Hinv.
  eapply Forall_impl; [exact Hinv|]. simpl. intros reg.
  by destruct (cancelled reg).
Qed.

(** X7.  [stopWatching] cancels the finder's listener and nothing else.  On
    an instance reached in any way, no listener of the instance is live
    afterwards, so that no report of the finder reaches it any more, and the
    instance is not watching; the finder keeps its registrations, each
    feeding the subject it fed.  The subjects keep their value and their
    observers, the streams are not completed and the resolutions in flight
    are not cancelled: time after [stopWatching] brings every subscriber what
    it brings without it. *)
Theorem stop_keeps_promises acts n w :
  (let w0 := state (run acts fresh_scene) in
   activeWatch (stopWatching w0) = None
   ∧ length (live w0) = (if isWatching w0 then 1 else 0)
   ∧ live (stopWatching w0) = []
   ∧ (∀ r packages, notify r packages (stopWatching w0) = stopWatching w0)
   ∧ (∀ r, feeds <$> watchers (stopWatching w0) !! r
           = feeds <$> watchers w0 !! r))
  ∧ subjects (stopWatching w) = subjects w
  ∧ pending (stopWatching w) = pending w
  ∧ ticks n (stopWatching w) = stopWatching (ticks n w)
  ∧ ∀ c, received_by c (ticks n (stopWatching w)) = received_by c (ticks n w).
Proof.
  destruct (stopWatching_streams w) as (Hs & Hp & _).
  split; [|split_and!; try done; [apply ticks_stopWatching|]].
  - cbn zeta. set (w0 := state (run acts fresh_scene)).
    pose proof (run_session_inv acts) as Hinv. fold w0 in Hinv.
    pose proof (stopWatching_cancels_all w0 Hinv) as Hall.
    split_and!.
    + unfold stopWatching. destruct (activeWatch w0) eqn:E; [done|exact E].
    + unfold session_inv, isWatching in *.
      destruct (activeWatch w0); [by destruct Hinv|done].
    + unfold live. destruct (filter_none (λ reg, negb (cancelled reg))
                               (watchers (stopWatching w0))) as [E _];
        [|exact E].
      eapply Forall_impl; [exact Hall|]. simpl. by intros reg ->.
    + intros r packages. unfold notify.
      destruct (watchers (stopWatching w0) !! r) as [reg|] eqn:Hr; [|done].
      rewrite Forall_forall in Hall.
      by rewrite (Hall reg (list_elem_of_lookup_2 _ _ _ Hr)).
    + intros r. unfold stopWatching.
      destruct (activeWatch w0) as [aw|]; [|done]. simpl.
      destruct (decide (close aw = r)) as [->|Hne].
      * rewrite list_lookup_alter_eq. by destruct (watchers w0 !! r).
      * by rewrite list_lookup_alter_ne.
  - intros c. rewrite ticks_stopWatching. unfold received_by.
    by destruct (stopWatching_streams (ticks n w)) as (_ & _ & -> & _).
Qed.
